(** * libslm-binary: the [binary] class of [src/index.ts]

    A shallow embedding of the fixed-width [binary] value type and of the
    operations its specification talks about, followed by the properties
    that were checked against it.

    Numbers.  A JavaScript [number] is modelled by an integer of [Z]: the
    embedding covers integer-valued numbers, on which [+] and [-] are exact
    (all sums formed here stay far below 2^53).  The bitwise operators
    first reduce their operands to 32-bit two's complement ([ToInt32]),
    as ECMAScript prescribes; that wrap-around is written out below.

    Objects.  A [binary] instance is a record; instances live in a store
    and are named by references, so that in-place mutation, identity of
    the returned receiver and independence of copies can be stated. *)

From Stdlib Require Import ZArith Lia List String Ascii Bool DecimalString
  DecimalZ.
From stdpp Require Import base list.

Local Open Scope Z_scope.

(* ===================================================================== *)
(** ** 32-bit integer operators of the host language *)
(* ===================================================================== *)

Module Int32.

Definition ToInt32 (z : Z) : Z := (z + 2 ^ 31) mod 2 ^ 32 - 2 ^ 31.

Definition ToUint32 (z : Z) : Z := z mod 2 ^ 32.

(** [a & b] *)
Definition and (a b : Z) : Z := Z.land (ToInt32 a) (ToInt32 b).

(** [a | b] *)
Definition or (a b : Z) : Z := Z.lor (ToInt32 a) (ToInt32 b).

(** [a ^ b] *)
Definition xor (a b : Z) : Z := Z.lxor (ToInt32 a) (ToInt32 b).

(** [~a] *)
Definition not (a : Z) : Z := Z.lnot (ToInt32 a).

(** [a << b]: the count is taken modulo 32, the result wraps. *)
Definition shl (a b : Z) : Z :=
  ToInt32 (Z.shiftl (ToInt32 a) (ToUint32 b mod 32)).

(** [a >> b]: sign-propagating, the count is taken modulo 32. *)
Definition sar (a b : Z) : Z :=
  Z.shiftr (ToInt32 a) (ToUint32 b mod 32).

(** A number used as a condition: every number but 0 is truthy. *)
Definition truthy (z : Z) : bool := negb (z =? 0).

End Int32.

(* ===================================================================== *)
(** ** String to number conversion (unary [+] on a string) *)
(* ===================================================================== *)

(** The part of the StringNumericLiteral grammar whose value is an
    integer and that carries no white space, fraction or exponent:
    the empty string (0), signed decimal digits, and the [0b], [0o], [0x]
    literals.  [None] stands for NaN.  Outside this part the host accepts
    more (surrounding white space, fractions, exponents, [Infinity]) and
    rounds integers above 2^53; a vector of width up to 32 never holds or
    prints such a number. *)

Definition digit_value (radix : Z) (c : ascii) : option Z :=
  let n := Z.of_nat (nat_of_ascii c) in
  let d :=
    if (48 <=? n) && (n <=? 57) then Some (n - 48)
    else if (97 <=? n) && (n <=? 102) then Some (n - 87)
    else if (65 <=? n) && (n <=? 70) then Some (n - 55)
    else None in
  match d with
  | Some v => if v <? radix then Some v else None
  | None => None
  end.

Fixpoint digits_value (radix : Z) (acc : Z) (s : string) : option Z :=
  match s with
  | EmptyString => Some acc
  | String c rest =>
      match digit_value radix c with
      | Some d => digits_value radix (acc * radix + d) rest
      | None => None
      end
  end.

Definition literal_value (radix : Z) (s : string) : option Z :=
  match s with
  | EmptyString => None
  | _ => digits_value radix 0 s
  end.

Definition StringToNumber (s : string) : option Z :=
  match s with
  | EmptyString => Some 0
  | String "0" (String "b" ds) | String "0" (String "B" ds) => literal_value 2 ds
  | String "0" (String "o" ds) | String "0" (String "O" ds) => literal_value 8 ds
  | String "0" (String "x" ds) | String "0" (String "X" ds) => literal_value 16 ds
  | String "+" ds => literal_value 10 ds
  | String "-" ds => option_map Z.opp (literal_value 10 ds)
  | _ => literal_value 10 s
  end.

(** ['1'.repeat(size)] *)
Fixpoint repeat_string (s : string) (count : nat) : string :=
  match count with
  | O => EmptyString
  | S n => append s (repeat_string s n)
  end.

(* ===================================================================== *)
(** ** The [binary] object *)
(* ===================================================================== *)

(** Indexed properties [this[0] .. this[length-1]] are the list [bits],
    index 0 first (the most significant bit). *)
Record binary : Type := mkBinary {
  length : nat;
  mask : Z;
  decimalMask : Z;
  signedMask : Z;
  useSigned : bool;
  bits : list bool
}.

(** [this[index]]; a missing property reads as [undefined], which is
    falsy. *)
Definition bit_at (l : list bool) (index : nat) : bool :=
  match l !! index with
  | Some b => b
  | None => false
  end.

(** The loop of the [unsigned] accessor.  [k] is [index + 1]: the loop
    runs while [index >= 0] and decrements [index]. *)
Fixpoint unsigned_loop (k : nat) (msk : Z) (number : Z) (l : list bool) : Z :=
  match k with
  | O => number
  | S index =>
      unsigned_loop index (Int32.shl msk 1)
        (number + (if bit_at l index then msk else 0)) l
  end.

Definition unsigned (this : binary) : Z :=
  unsigned_loop (length this) 1 0 (bits this).

Definition signed (this : binary) : Z :=
  let number := unsigned this in
  if Int32.truthy (Int32.and number (signedMask this))
  then - signedMask this + Int32.and number (decimalMask this)
  else number.

Definition valueOf (this : binary) : Z :=
  if useSigned this then signed this else unsigned this.

Definition value (this : binary) : Z :=
  if useSigned this then signed this else unsigned this.

(** The two loops of [reform]: [test msk] is the number whose truthiness
    is stored at [index]. *)
Fixpoint reform_loop (k : nat) (msk : Z) (test : Z -> Z) (l : list bool)
  : list bool :=
  match k with
  | O => l
  | S index =>
      reform_loop index (Int32.shl msk 1) test
        (<[index := Int32.truthy (test msk)]> l)
  end.

Definition set_bits (this : binary) (l : list bool) : binary :=
  mkBinary (length this) (mask this) (decimalMask this) (signedMask this)
           (useSigned this) l.

Definition reform_bits (this : binary) (v : Z) : list bool :=
  if negb (useSigned this) then
    reform_loop (length this) 1 (fun msk => Int32.and v msk) (bits this)
  else
    let l :=
      reform_loop (length this) 1
        (fun msk => Int32.and (Int32.and v msk) (decimalMask this))
        (bits this) in
    if v <? 0 then <[0%nat := true]> l else l.

Definition reform_object (this : binary) (v : Z) : binary :=
  set_bits this (reform_bits this v).

(** The value the constructor stores in [mask]:
    [+('0b' + '1'.repeat(size))].  For [size = 0] the literal is ['0b'],
    whose value is NaN; it is recorded as 0, which is what [>>] and [&],
    the only consumers of [mask], make of NaN.  The value is exact for
    [size <= 53], the precision of a number. *)
Definition mask_of_size (size : nat) : Z :=
  match StringToNumber (append "0b" (repeat_string "1" size)) with
  | Some n => n
  | None => 0
  end.

(** The object after the field assignments and the zero-fill loop of the
    constructor, before [convert] and [reform] run. *)
Definition blank (size : nat) (flag : bool) : binary :=
  let m := mask_of_size size in
  let d := Int32.sar m 1 in
  mkBinary size m d (Int32.and m d) flag (replicate size false).

(* ===================================================================== *)
(** ** Values handed to the constructor and to the operations *)
(* ===================================================================== *)

(** References to [binary] instances in the store. *)
Abbreviation ref := nat (only parsing).

(** The elements of an array argument, by their [typeof]. *)
Inductive elem : Type :=
| EBoolean (b : bool)
| ENumber (n : Z)
| EString (s : string)
| EOther.

(** The shapes [convert] tells apart.  [VOther] is any value of another
    type (a plain object, a function, a symbol ...). *)
Inductive jsval : Type :=
| VNull
| VUndefined
| VBinary (r : ref)
| VNumber (n : Z)
| VBoolean (b : bool)
| VString (s : string)
| VArray (data : list elem)
| VOther.

(** The [Error]s thrown by [src/index.ts], one constructor per message.
    [DanglingReference] is not a JavaScript error: it is the outcome of
    following a reference that no [new] returned. *)
Inductive error : Type :=
| GivenValueNull
| GivenValueUndefined
| ConvertNull
| ConvertUndefined
| ConvertEmptyString
| ConvertNonNumericString
| ConvertEmptyArray
| ConvertArrayContent
| ConvertUnsupported
| TargetNotBinary
| DanglingReference.

(* ===================================================================== *)
(** ** The store, and computations that may throw *)
(* ===================================================================== *)

Abbreviation heap := (list binary) (only parsing).

Definition M (A : Type) : Type := heap -> (error + A) * heap.

Definition ret {A} (a : A) : M A := fun h => (inr a, h).

Definition throw {A} (e : error) : M A := fun h => (inl e, h).

Definition bind {A B} (m : M A) (k : A -> M B) : M B :=
  fun h =>
    match m h with
    | (inl e, h') => (inl e, h')
    | (inr a, h') => k a h'
    end.

Notation "'do' x <- m ; k" := (bind m (fun x => k))
  (at level 10, x name, m at level 100, k at level 200).

(** [new]: a fresh object enters the store. *)
Definition alloc (o : binary) : M ref :=
  fun h => (inr (List.length h), h ++ [o]).

Definition load (r : ref) : M binary :=
  fun h =>
    match h !! r with
    | Some o => (inr o, h)
    | None => (inl DanglingReference, h)
    end.

Definition store (r : ref) (o : binary) : M unit :=
  fun h => (inr tt, <[r := o]> h).

(* ===================================================================== *)
(** ** [convert] *)
(* ===================================================================== *)

Definition is_boolean (e : elem) : bool :=
  match e with EBoolean _ => true | _ => false end.

Definition is_number (e : elem) : bool :=
  match e with ENumber _ => true | _ => false end.

(** [typeof value === 'string' && !isNaN(+value)] *)
Definition is_numeric_string (e : elem) : bool :=
  match e with
  | EString s => match StringToNumber s with Some _ => true | None => false end
  | _ => false
  end.

(** An array element where a number is expected ([data[index] & mask]):
    ToNumber of the element; NaN reads as 0 under [&]. *)
Definition elem_number (e : elem) : Z :=
  match e with
  | EBoolean b => if b then 1 else 0
  | ENumber n => n
  | EString s => match StringToNumber s with Some n => n | None => 0 end
  | EOther => 0
  end.

(** An array element used as a condition ([data[index] ? 1 : 0]). *)
Definition elem_truthy (e : elem) : bool :=
  match e with
  | EBoolean b => b
  | ENumber n => Int32.truthy n
  | EString s => negb (String.eqb s EmptyString)
  | EOther => true
  end.

Definition elem_at (data : list elem) (index : nat) : elem :=
  match data !! index with
  | Some e => e
  | None => EOther
  end.

(** The loops of the array branch; [k] is [index + 1].  [term e msk] is
    the number added to [value] at each step. *)
Fixpoint convert_loop (k : nat) (msk : Z) (v : Z) (term : elem -> Z -> Z)
  (data : list elem) : Z :=
  match k with
  | O => v
  | S index =>
      convert_loop index (Int32.shl msk 1)
        (v + term (elem_at data index) msk) term data
  end.

Definition boolean_term (e : elem) (msk : Z) : Z :=
  Int32.and (if elem_truthy e then 1 else 0) msk.

Definition number_term (e : elem) (msk : Z) : Z :=
  Int32.and (elem_number e) msk.

Definition convert_array (data : list elem) : error + Z :=
  match data with
  | [] => inl ConvertEmptyArray
  | _ =>
      let found := false in
      let v := 0 in
      let '(found, v) :=
        if forallb is_boolean data
        then (true, convert_loop (List.length data) 1 v boolean_term data)
        else (found, v) in
      let '(found, v) :=
        if forallb is_number data
        then (true, convert_loop (List.length data) 1 v number_term data)
        else (found, v) in
      let '(found, v) :=
        if forallb is_numeric_string data
        then (true, convert_loop (List.length data) 1 v number_term data)
        else (found, v) in
      if negb found then inl ConvertArrayContent else inr v
  end.

Definition lift {A} (x : error + A) : M A :=
  match x with
  | inl e => throw e
  | inr a => ret a
  end.

Definition convert (data : jsval) : M Z :=
  match data with
  | VNull => throw ConvertNull
  | VUndefined => throw ConvertUndefined
  | VBinary r => do o <- load r; ret (valueOf o)
  | VNumber n => ret n
  | VBoolean b => ret (if b then 1 else 0)
  | VString s =>
      if String.eqb s EmptyString then throw ConvertEmptyString
      else match StringToNumber s with
           | None => throw ConvertNonNumericString
           | Some n => ret n
           end
  | VArray data => lift (convert_array data)
  | VOther => throw ConvertUnsupported
  end.

(* ===================================================================== *)
(** ** Constructor, [reform], and the static operations *)
(* ===================================================================== *)

(** [this.reform(value)]: the receiver is rewritten in place and
    returned. *)
Definition reform (this : ref) (v : Z) : M ref :=
  do o <- load this;
  do _ <- store this (reform_object o v);
  ret this.

(** The object as the field initialisers leave it, before the
    constructor body runs: [useSigned = false], no bits yet. *)
Definition fresh_object : binary := mkBinary 0 0 0 0 false [].

(** [typeof arguments[2] === 'boolean'] decides whether [useSigned] is
    overwritten. *)
Definition flag_of (o : binary) (flag : jsval) : bool :=
  match flag with
  | VBoolean b => b
  | _ => useSigned o
  end.

(** [new binary(size, argument, flag)] *)
Definition constructor (size : nat) (argument flag : jsval) : M ref :=
  do this <- alloc fresh_object;
  match argument with
  | VNull => throw GivenValueNull
  | VUndefined => throw GivenValueUndefined
  | _ =>
      do o <- load this;
      do _ <- store this (blank size (flag_of o flag));
      do v <- convert argument;
      reform this v
  end.

(** The static operations.  [operation op] is the body the binary ones
    ([and], [or], [xor], [leftShift], [rightShift], [add], [subtract])
    share; [op] is the native operator applied to the two numbers. *)
Module Static.

Definition operation (op : Z -> Z -> Z) (target operand : jsval) : M ref :=
  match target with
  | VBinary t =>
      do tobj <- load t;
      do v <- constructor (length tobj) operand (VBoolean (useSigned tobj));
      do tnow <- load t;
      do vobj <- load v;
      let number := op (valueOf tnow) (valueOf vobj) in
      reform t number
  | _ => throw TargetNotBinary
  end.

Definition and := operation Int32.and.
Definition or := operation Int32.or.
Definition xor := operation Int32.xor.
Definition leftShift := operation Int32.shl.
Definition rightShift := operation Int32.sar.
Definition add := operation Z.add.
Definition subtract := operation Z.sub.

Definition not (target : jsval) : M ref :=
  match target with
  | VBinary t =>
      do tobj <- load t;
      reform t (Int32.not (valueOf tobj))
  | _ => throw TargetNotBinary
  end.

(** The body the static comparisons share: the operand is rebuilt as for
    an operation, the two effective values are compared natively, and
    nothing is written back. *)
Definition comparison (rel : Z -> Z -> bool) (target operand : jsval)
  : M bool :=
  match target with
  | VBinary t =>
      do tobj <- load t;
      do v <- constructor (length tobj) operand (VBoolean (useSigned tobj));
      do tnow <- load t;
      do vobj <- load v;
      ret (rel (valueOf tnow) (valueOf vobj))
  | _ => throw TargetNotBinary
  end.

Definition equal := comparison Z.eqb.
Definition notEqual := comparison (fun a b => negb (a =? b)).
Definition greaterThen := comparison Z.gtb.
Definition lessThen := comparison Z.ltb.
Definition greaterThenOrEqual := comparison Z.geb.
Definition lessThenOrEqual := comparison Z.leb.

End Static.

(** The instance methods; the operations forward to the static ones with
    [this] as target. *)
Module Method.

Definition and (this : ref) (v : jsval) : M ref :=
  Static.and (VBinary this) v.
Definition or (this : ref) (v : jsval) : M ref :=
  Static.or (VBinary this) v.
Definition xor (this : ref) (v : jsval) : M ref :=
  Static.xor (VBinary this) v.
Definition not (this : ref) : M ref :=
  Static.not (VBinary this).
Definition leftShift (this : ref) (v : jsval) : M ref :=
  Static.leftShift (VBinary this) v.
Definition rightShift (this : ref) (v : jsval) : M ref :=
  Static.rightShift (VBinary this) v.
Definition add (this : ref) (v : jsval) : M ref :=
  Static.add (VBinary this) v.
Definition subtract (this : ref) (v : jsval) : M ref :=
  Static.subtract (VBinary this) v.

(** [get copy(): binary { return new binary(this.length, this) }]:
    no third argument is passed. *)
Definition copy (this : ref) : M ref :=
  do o <- load this;
  constructor (length o) (VBinary this) VUndefined.

(** [fromArray(array)] *)
Definition fromArray (this : ref) (array : jsval) : M ref :=
  do v <- convert array;
  do _ <- reform this v;
  ret this.

Definition equal (this : ref) (v : jsval) : M bool :=
  Static.equal (VBinary this) v.
Definition notEqual (this : ref) (v : jsval) : M bool :=
  Static.notEqual (VBinary this) v.
Definition greaterThen (this : ref) (v : jsval) : M bool :=
  Static.greaterThen (VBinary this) v.
Definition lessThen (this : ref) (v : jsval) : M bool :=
  Static.lessThen (VBinary this) v.
Definition greaterThenOrEqual (this : ref) (v : jsval) : M bool :=
  Static.greaterThenOrEqual (VBinary this) v.
Definition lessThenOrEqual (this : ref) (v : jsval) : M bool :=
  Static.lessThenOrEqual (VBinary this) v.

(** [fromBinary], [fromBoolean], [fromNumber], [fromString]: like
    [fromArray], each converts its argument and reforms the receiver. *)
Definition fromBinary (this : ref) (b : ref) : M ref :=
  do v <- convert (VBinary b);
  do _ <- reform this v;
  ret this.

Definition fromBoolean (this : ref) (b : bool) : M ref :=
  do v <- convert (VBoolean b);
  do _ <- reform this v;
  ret this.

Definition fromNumber (this : ref) (n : Z) : M ref :=
  do v <- convert (VNumber n);
  do _ <- reform this v;
  ret this.

Definition fromString (this : ref) (s : string) : M ref :=
  do v <- convert (VString s);
  do _ <- reform this v;
  ret this.

End Method.

(** Direct indexed assignment [this[index] = b] and [this.useSigned = f],
    the two ways a caller writes to an instance. *)
Definition set_bit (this : ref) (index : nat) (b : bool) : M unit :=
  do o <- load this;
  store this (set_bits o (<[index := b]> (bits o))).

Definition set_useSigned (this : ref) (f : bool) : M unit :=
  do o <- load this;
  store this (mkBinary (length o) (mask o) (decimalMask o) (signedMask o)
                       f (bits o)).

(* ===================================================================== *)
(** ** Conversion to output formats *)
(* ===================================================================== *)

(** [toArray()]: [index] runs upward; [n] is the number of iterations
    left. *)
Fixpoint toArray_loop (n : nat) (index : nat) (array : list bool)
  (l : list bool) : list bool :=
  match n with
  | O => array
  | S n' => toArray_loop n' (S index) (array ++ [bit_at l index]) l
  end.

Definition toArray (this : binary) : list bool :=
  toArray_loop (length this) 0 [] (bits this).

Fixpoint toBinaryString_loop (n : nat) (index : nat) (str : string)
  (l : list bool) : string :=
  match n with
  | O => str
  | S n' =>
      toBinaryString_loop n' (S index)
        (append str (if bit_at l index then "1" else "0")) l
  end.

Definition toBinaryString (this : binary) (prefix : bool) : string :=
  toBinaryString_loop (length this) 0
    (if prefix then "0b" else EmptyString) (bits this).

(** [stringified[index] == '1'] *)
Definition is_one_at (stringified : string) (index : nat) : bool :=
  match String.get index stringified with
  | Some c => Ascii.eqb c "1"
  | None => false
  end.

(** The inner loop of [toHexadecimalString], from [index] up to [end];
    [n] is [end - index]. *)
Fixpoint chunk_loop (n : nat) (index : nat) (number : Z)
  (stringified : string) : Z :=
  match n with
  | O => number
  | S n' =>
      chunk_loop n' (S index)
        (number + (if is_one_at stringified index then 1 else 0)) stringified
  end.

(** [string += number] for a number: its decimal text. *)
Definition number_to_string (z : Z) : string :=
  DecimalString.NilZero.string_of_int (Z.to_int z).

(** The [switch] of [toHexadecimalString]. *)
Definition hex_digit (number : Z) : string :=
  match number with
  | 10 => "A"
  | 11 => "B"
  | 12 => "C"
  | 13 => "D"
  | 14 => "E"
  | 15 => "F"
  | _ => number_to_string number
  end.

(** The body of the outer loop for one [char]: the number it computes. *)
Definition chunk_number (stringified : string) (char : nat) : Z :=
  let number := 0 in
  let start := (char * 4)%nat in
  let end_ := (start + 4)%nat in
  if (end_ <? String.length stringified)%nat
  then chunk_loop (end_ - start) start number stringified
  else number.

Fixpoint toHexadecimalString_loop (n : nat) (char : nat) (str : string)
  (stringified : string) : string :=
  match n with
  | O => str
  | S n' =>
      toHexadecimalString_loop n' (S char)
        (append str (hex_digit (chunk_number stringified char))) stringified
  end.

(** [Math.ceil(stringified.length / 4)] *)
Definition ceil_div4 (n : nat) : nat := ((n + 3) / 4)%nat.

Definition toHexadecimalString (this : binary) (prefix : bool) : string :=
  let stringified := toBinaryString this false in
  let len := ceil_div4 (String.length stringified) in
  toHexadecimalString_loop len 0
    (if prefix then "0x" else EmptyString) stringified.

(* ===================================================================== *)
(** ** [toString] and the iterator *)
(* ===================================================================== *)

(** [toString()]: the decimal text of [valueOf()]. *)
Definition toString (this : binary) : string :=
  number_to_string (valueOf this).

(** [this[index]] read as a value: [None] is [undefined]. *)
Definition property_at (l : list bool) (index : Z) : option bool :=
  if index <? 0 then None else l !! Z.to_nat index.

(** The generator [*[Symbol.iterator]]: its state is the loop variable
    [index], about to be tested against [index >= 0], or the fact that it
    has returned. *)
Inductive generator : Type :=
| Running (index : Z)
| Returned.

Definition iterator (this : binary) : generator :=
  Running (Z.of_nat (length this) - 1).

(** One call of [next()]: the value yielded, if any, and the state the
    generator is left in.  After a yield the generator resumes at
    [if (index === 0) return;] and then at [index++]. *)
Definition next (this : binary) (g : generator)
  : option (option bool) * generator :=
  match g with
  | Returned => (None, Returned)
  | Running index =>
      if index >=? 0
      then (Some (property_at (bits this) index),
            if index =? 0 then Returned else Running (index + 1))
      else (None, Returned)
  end.

(** The values the first [n] calls of [next()] yield. *)
Fixpoint take_yields (n : nat) (this : binary) (g : generator)
  : list (option bool) :=
  match n with
  | O => []
  | S n' =>
      match next this g with
      | (Some v, g') => v :: take_yields n' this g'
      | (None, _) => []
      end
  end.

(* ===================================================================== *)
(** ** The older variant of [fromArray] ([src/unnamed/part_000]) *)
(* ===================================================================== *)

Module Legacy.

Inductive error : Type :=
| NullError
| UndefinedError
| TypeError
| EmptyError.

Definition is_string (e : elem) : bool :=
  match e with EString _ => true | _ => false end.

(** What is stored for an element of each kind: the boolean itself,
    [array[mask] > 0], and [+array[mask] > 0] for a numeric string
    ([false] for a string that is not numeric). *)
Definition pick_boolean (e : elem) : bool := elem_truthy e.

Definition pick_number (e : elem) : bool := elem_number e >? 0.

Definition pick_string (e : elem) : bool :=
  match e with
  | EString s =>
      match StringToNumber s with Some n => n >? 0 | None => false end
  | _ => false
  end.

(** The copy loop: [index] runs down from [length - 1] ([k] is
    [index + 1]), [msk] runs down from [array.length - 1] and may go
    negative. *)
Fixpoint copy_loop (k : nat) (msk : Z) (pick : elem -> bool)
  (array : list elem) (l : list bool) : list bool :=
  match k with
  | O => l
  | S index =>
      copy_loop index (msk - 1) pick array
        (<[index := if msk >=? 0
                    then pick (elem_at array (Z.to_nat msk))
                    else false]> l)
  end.

Definition fromArray (this : binary) (array : jsval) : error + binary :=
  match array with
  | VNull => inl NullError
  | VUndefined => inl UndefinedError
  | VArray data =>
      match data with
      | [] => inl EmptyError
      | _ =>
          let start := Z.of_nat (List.length data) - 1 in
          let l := bits this in
          let l := if forallb is_boolean data
                   then copy_loop (length this) start pick_boolean data l
                   else l in
          let l := if forallb is_number data
                   then copy_loop (length this) start pick_number data l
                   else l in
          let l := if forallb is_string data
                   then copy_loop (length this) start pick_string data l
                   else l in
          inr (set_bits this l)
      end
  | _ => inl TypeError
  end.

End Legacy.

(* ===================================================================== *)
(** ** The preset classes [bit], [nibble], [byte], [word], [dword] *)
(* ===================================================================== *)

Module Preset.

Inductive preset : Type := bit | nibble | byte | word | dword.

(** The first argument of [super(...)]. *)
Definition size (p : preset) : nat :=
  match p with
  | bit => 1
  | nibble => 4
  | byte => 8
  | word => 16
  | dword => 32
  end.

(** [constructor() { super(size, arguments[0], arguments[1]) }] *)
Definition constructor (p : preset) (value flag : jsval) : M ref :=
  constructor (size p) value flag.

(** [get copy() { return new bit(this) }] *)
Definition copy (p : preset) (this : ref) : M ref :=
  constructor p (VBinary this) VUndefined.

(** [static get zero() { return new bit(0) }] *)
Definition zero (p : preset) : M ref :=
  constructor p (VNumber 0) VUndefined.

End Preset.

(* ===================================================================== *)
(** ** Auxiliary definitions for the further properties *)
(* ===================================================================== *)

(** The three array shapes the constructor's signatures name:
    [boolean[]], [(1 | 0)[]] and [('1' | '0')[]], each as the encoding of
    a bit sequence. *)
Inductive shape : Type := Booleans | Numbers | Strings.

Definition encode (sh : shape) (b : bool) : elem :=
  match sh with
  | Booleans => EBoolean b
  | Numbers => ENumber (if b then 1 else 0)
  | Strings => EString (if b then "1" else "0")
  end.

(** The [w] low bits of [v], most significant first. *)
Definition bits_of_number (w : nat) (v : Z) : list bool :=
  (fun i => Z.testbit v (Z.of_nat (w - 1 - i))) <$> seq 0 w.

(** The text of a bit sequence. *)
Fixpoint bit_string (l : list bool) : string :=
  match l with
  | [] => EmptyString
  | b :: rest => String (if b then "1" else "0")%char (bit_string rest)
  end.

(** The number of set bits among the four bits of chunk [char]. *)
Definition popcount (l : list bool) (char : nat) : nat :=
  (Nat.b2n (bit_at l (char * 4)) + Nat.b2n (bit_at l (char * 4 + 1))
   + Nat.b2n (bit_at l (char * 4 + 2)) + Nat.b2n (bit_at l (char * 4 + 3)))%nat.

(** The digit the outer loop appends for chunk [char]. *)
Definition chunk_digit (l : list bool) (char : nat) : nat :=
  if (char * 4 + 4 <? List.length l)%nat then popcount l char else 0%nat.

(** The digit '0' .. '9' of a small number. *)
Definition digit_char (n : nat) : ascii := ascii_of_nat (48 + n).

Fixpoint digits_string (l : list nat) : string :=
  match l with
  | [] => EmptyString
  | n :: rest => String (digit_char n) (digits_string rest)
  end.

(* ===================================================================== *)
(** ** Vectors, and running programs *)
(* ===================================================================== *)

(** [vector w o]: [o] is an instance of width [w], as the constructor
    builds it and as direct bit writes, flag toggles and [reform] keep it.
    The read-only fields are the ones the constructor computed; the bits
    and the flag are arbitrary. *)
Definition vector (w : nat) (o : binary) : Prop :=
  length o = w /\
  mask o = mask_of_size w /\
  decimalMask o = Int32.sar (mask_of_size w) 1 /\
  signedMask o = Int32.and (mask_of_size w) (Int32.sar (mask_of_size w) 1) /\
  List.length (bits o) = w.

(** Reading a property of the instance a reference names. *)
Definition read {A} (r : ref) (f : binary -> A) : M A :=
  do o <- load r; ret (f o).

(** A program run from the empty store: what it returns or throws. *)
Definition run {A} (m : M A) : error + A := fst (m []).

Ltac run_monad :=
  unfold bind, ret, throw, load, store, alloc, lift in *; cbn beta iota in *.

(* ===================================================================== *)
(** ** Auxiliary definitions used to state what the loops compute *)
(* ===================================================================== *)

(** The mask after [j] executions of [mask <<= 1], starting from 1. *)
Definition mask_at (j : nat) : Z := Nat.iter j (fun m => Int32.shl m 1) 1.

(** The number the first [k] bits of [l] spell, most significant first. *)
Fixpoint prefix_value (k : nat) (l : list bool) : Z :=
  match k with
  | O => 0
  | S index => 2 * prefix_value index l + (if bit_at l index then 1 else 0)
  end.

(** The store an operand is converted in differs from the caller's by the
    object under construction; an operand that lives in the caller's store
    converts alike in both. *)
Definition in_store (h : heap) (data : jsval) : Prop :=
  match data with
  | VBinary r => (r < List.length h)%nat
  | _ => True
  end.

(* ===================================================================== *)
(** ** The signed decode: the masks of the code, the words of the claim *)
(* ===================================================================== *)

(** The masks the constructor derives at width [w]
    ([this.decimalMask = this.mask >> 1] and
    [this.signedMask = this.mask & this.decimalMask], 32-bit operators),
    and what the [signed] accessor makes of an unsigned reading [u] with
    them. *)
Definition decimalMask_of_size (w : nat) : Z := Int32.sar (mask_of_size w) 1.
Definition signedMask_of_size (w : nat) : Z :=
  Int32.and (mask_of_size w) (decimalMask_of_size w).

Definition signed_of_unsigned (w : nat) (u : Z) : Z :=
  if Int32.and u (signedMask_of_size w) =? 0 then u
  else - signedMask_of_size w + Int32.and u (decimalMask_of_size w).

(** The decode in the words of the claim: [mask = 2^w - 1], an unsigned
    integer; [halfMask = mask >> 1], the mask without its top bit;
    [signMask = mask & halfMask]; the decode of [u] is [u] when
    [(u & signMask) == 0] and [-signMask + (u & halfMask)] otherwise. *)
Definition spec_mask (w : nat) : Z := 2 ^ Z.of_nat w - 1.
Definition math_halfMask (w : nat) : Z := Z.shiftr (spec_mask w) 1.
Definition math_signMask (w : nat) : Z :=
  Z.land (spec_mask w) (math_halfMask w).

Definition math_signed (w : nat) (u : Z) : Z :=
  if Z.land u (math_signMask w) =? 0 then u
  else - math_signMask w + Z.land u (math_halfMask w).

(* ===================================================================== *)
(** ** Facts about the 32-bit operators *)
(* ===================================================================== *)

Section Int32Facts.

Import Int32.

Lemma ToInt32_range z : - 2 ^ 31 <= ToInt32 z < 2 ^ 31.
Proof.
  unfold ToInt32.
  pose proof (Z.mod_pos_bound (z + 2 ^ 31) (2 ^ 32) ltac:(lia)). lia.
Qed.

Lemma ToInt32_id z : - 2 ^ 31 <= z < 2 ^ 31 -> ToInt32 z = z.
Proof.
  intros H. unfold ToInt32. rewrite Z.mod_small; lia.
Qed.

Lemma ToInt32_eqm z : ToInt32 z mod 2 ^ 32 = z mod 2 ^ 32.
Proof.
  unfold ToInt32.
  replace ((z + 2 ^ 31) mod 2 ^ 32 - 2 ^ 31)
    with ((z + 2 ^ 31) mod 2 ^ 32 + (- 2 ^ 31)) by lia.
  rewrite Zplus_mod_idemp_l. f_equal. lia.
Qed.

Lemma ToInt32_testbit z j :
  0 <= j < 32 -> Z.testbit (ToInt32 z) j = Z.testbit z j.
Proof.
  intros H.
  rewrite <- (Z.mod_pow2_bits_low (ToInt32 z) 32 j) by lia.
  rewrite <- (Z.mod_pow2_bits_low z 32 j) by lia.
  now rewrite ToInt32_eqm.
Qed.

Lemma ToInt32_mod_pow2 z w :
  0 <= w <= 32 -> ToInt32 z mod 2 ^ w = z mod 2 ^ w.
Proof.
  intros H.
  assert (D : (2 ^ w | 2 ^ 32)).
  { exists (2 ^ (32 - w)). rewrite <- Z.pow_add_r by lia. f_equal. lia. }
  rewrite <- (Z.mod_mod_divide (ToInt32 z) (2 ^ 32) (2 ^ w) D).
  rewrite <- (Z.mod_mod_divide z (2 ^ 32) (2 ^ w) D).
  now rewrite ToInt32_eqm.
Qed.

(** Doubling a power of two below the sign bit. *)
Lemma shl_pow2 j : 0 <= j < 30 -> shl (2 ^ j) 1 = 2 ^ (j + 1).
Proof.
  intros H. unfold shl, ToUint32.
  change (1 mod 2 ^ 32 mod 32) with 1.
  assert (B : 2 ^ j < 2 ^ 30) by (apply Z.pow_lt_mono_r; lia).
  assert (P : 0 < 2 ^ j) by (apply Z.pow_pos_nonneg; lia).
  rewrite (ToInt32_id (2 ^ j)) by lia.
  rewrite Z.shiftl_mul_pow2 by lia.
  rewrite Z.pow_add_r by lia.
  apply ToInt32_id. lia.
Qed.

Lemma shl_pow2_nat (j : nat) :
  (j < 30)%nat -> shl (2 ^ Z.of_nat j) 1 = 2 ^ Z.of_nat (S j).
Proof.
  intros H. rewrite shl_pow2 by lia. f_equal. lia.
Qed.

(** Testing one bit of a number with a one-bit mask. *)
Lemma and_pow2 v j :
  0 <= j < 31 ->
  and v (2 ^ j) = if Z.testbit v j then 2 ^ j else 0.
Proof.
  intros H. unfold and.
  assert (B : 2 ^ j < 2 ^ 31) by (apply Z.pow_lt_mono_r; lia).
  assert (P : 0 < 2 ^ j) by (apply Z.pow_pos_nonneg; lia).
  rewrite (ToInt32_id (2 ^ j)) by lia.
  rewrite <- (ToInt32_testbit v j) by lia.
  apply Z.bits_inj'. intros n Hn.
  rewrite Z.land_spec, Z.pow2_bits_eqb by lia.
  destruct (Z.eqb_spec j n) as [->|Hne].
  - rewrite andb_true_r.
    destruct (Z.testbit (ToInt32 v) n) eqn:E.
    + now rewrite Z.pow2_bits_true by lia.
    + now rewrite Z.bits_0.
  - rewrite andb_false_r.
    destruct (Z.testbit (ToInt32 v) j).
    + rewrite Z.pow2_bits_false by lia. reflexivity.
    + now rewrite Z.bits_0.
Qed.

Lemma truthy_and_pow2 v j :
  0 <= j < 31 -> truthy (and v (2 ^ j)) = Z.testbit v j.
Proof.
  intros H. rewrite and_pow2 by lia. unfold truthy.
  assert (P : 0 < 2 ^ j) by (apply Z.pow_pos_nonneg; lia).
  destruct (Z.testbit v j).
  - destruct (Z.eqb_spec (2 ^ j) 0); [lia | reflexivity].
  - reflexivity.
Qed.

End Int32Facts.

(* ===================================================================== *)
(** ** The masks the constructor derives *)
(* ===================================================================== *)

Lemma digits_value_ones (n : nat) (acc : Z) :
  digits_value 2 acc (repeat_string "1" n)
  = Some (acc * 2 ^ Z.of_nat n + (2 ^ Z.of_nat n - 1)).
Proof.
  revert acc. induction n as [|n IH]; intros acc.
  - cbn. f_equal. lia.
  - change (repeat_string "1" (S n)) with (String "1" (repeat_string "1" n)).
    cbn [digits_value].
    change (digit_value 2 "1") with (Some 1).
    cbv beta iota.
    rewrite IH. f_equal.
    rewrite Nat2Z.inj_succ, Z.pow_succ_r by lia. lia.
Qed.

Lemma mask_of_size_pow2 (size : nat) :
  mask_of_size size = 2 ^ Z.of_nat size - 1.
Proof.
  unfold mask_of_size.
  destruct size as [|n]; [reflexivity|].
  change (StringToNumber (append "0b" (repeat_string "1" (S n))))
    with (digits_value 2 0 (repeat_string "1" (S n))).
  rewrite digits_value_ones. lia.
Qed.

(** Up to width 31 the two derived masks are the low [size - 1] ones. *)
Lemma low_masks (size : nat) :
  (1 <= size <= 31)%nat ->
  Int32.sar (mask_of_size size) 1 = 2 ^ (Z.of_nat size - 1) - 1 /\
  Int32.and (mask_of_size size) (Int32.sar (mask_of_size size) 1)
  = 2 ^ (Z.of_nat size - 1) - 1.
Proof.
  intros H.
  assert (C : exists n, size = S n /\ (n < 31)%nat)
    by (exists (pred size); lia).
  destruct C as (n & -> & Hn).
  do 31 (destruct n as [|n]; [vm_compute; split; reflexivity|]).
  lia.
Qed.

(* ===================================================================== *)
(** ** What the loops of [reform] and [unsigned] compute *)
(* ===================================================================== *)

Lemma mask_at_pow2 (j : nat) : (j <= 30)%nat -> mask_at j = 2 ^ Z.of_nat j.
Proof.
  induction j as [|j IH]; intros H; [reflexivity|].
  change (mask_at (S j)) with (Int32.shl (mask_at j) 1).
  rewrite IH by lia. apply shl_pow2_nat. lia.
Qed.

Lemma reform_loop_length k msk test l :
  List.length (reform_loop k msk test l) = List.length l.
Proof.
  revert msk l. induction k as [|k IH]; intros msk l; [reflexivity|].
  cbn [reform_loop]. rewrite IH. apply length_insert.
Qed.

(** The loop rewrites the first [k] positions and nothing else. *)
Lemma reform_loop_lookup k msk test (l : list bool) (i : nat) :
  (k <= List.length l)%nat ->
  reform_loop k msk test l !! i
  = if decide (i < k)%nat
    then Some (Int32.truthy
                 (test (Nat.iter (k - 1 - i) (fun m => Int32.shl m 1) msk)))
    else l !! i.
Proof.
  revert msk l. induction k as [|k IH]; intros msk l H.
  - cbn. destruct (decide (i < 0)%nat); [lia | reflexivity].
  - cbn [reform_loop]. rewrite IH by (rewrite length_insert; lia).
    destruct (decide (i < k)%nat) as [Hlt|Hge].
    + destruct (decide (i < S k)%nat); [|lia].
      replace (S k - 1 - i)%nat with (S (k - 1 - i)) by lia.
      now rewrite Nat.iter_succ_r.
    + destruct (decide (i < S k)%nat) as [Hlt'|Hge'].
      * assert (i = k) as -> by lia.
        rewrite list_lookup_insert_eq by lia.
        replace (S k - 1 - k)%nat with 0%nat by lia. reflexivity.
      * rewrite list_lookup_insert_ne by lia. reflexivity.
Qed.

Lemma unsigned_loop_pow2 k (j : nat) number l :
  (j + k <= 31)%nat ->
  unsigned_loop k (2 ^ Z.of_nat j) number l
  = number + 2 ^ Z.of_nat j * prefix_value k l.
Proof.
  revert j number. induction k as [|k IH]; intros j number H.
  - cbn. lia.
  - cbn [unsigned_loop prefix_value].
    destruct k as [|k'].
    + cbn. destruct (bit_at l 0); lia.
    + rewrite shl_pow2_nat by lia.
      rewrite IH by lia.
      rewrite Nat2Z.inj_succ, Z.pow_succ_r by lia.
      destruct (bit_at l (S k')); lia.
Qed.

Lemma unsigned_prefix_value (this : binary) :
  (length this <= 31)%nat ->
  unsigned this = prefix_value (length this) (bits this).
Proof.
  intros H. unfold unsigned.
  rewrite (unsigned_loop_pow2 _ 0) by lia. cbn. lia.
Qed.

Lemma prefix_value_range k l : 0 <= prefix_value k l < 2 ^ Z.of_nat k.
Proof.
  induction k as [|k IH]; [cbn; lia|].
  cbn [prefix_value]. rewrite Nat2Z.inj_succ, Z.pow_succ_r by lia.
  destruct (bit_at l k); lia.
Qed.

Lemma prefix_value_testbits (w k : nat) (v : Z) (l : list bool) :
  (k <= w)%nat ->
  (forall i, (i < k)%nat -> bit_at l i = Z.testbit v (Z.of_nat (w - 1 - i))) ->
  prefix_value k l = (v / 2 ^ Z.of_nat (w - k)) mod 2 ^ Z.of_nat k.
Proof.
  induction k as [|k IH]; intros Hk Hbits.
  - cbn. now rewrite Z.mod_1_r.
  - cbn [prefix_value].
    rewrite IH by (try lia; intros i Hi; apply Hbits; lia).
    rewrite Hbits by lia.
    replace (w - 1 - k)%nat with (w - S k)%nat by lia.
    replace (w - k)%nat with (S (w - S k)) by lia.
    set (n := (w - S k)%nat).
    rewrite !Nat2Z.inj_succ, !Z.pow_succ_r by lia.
    assert (P : 0 < 2 ^ Z.of_nat n) by (apply Z.pow_pos_nonneg; lia).
    assert (Q : 0 < 2 ^ Z.of_nat k) by (apply Z.pow_pos_nonneg; lia).
    rewrite (Z.mul_comm 2 (2 ^ Z.of_nat n)).
    rewrite <- Z.div_div by lia.
    assert (T : (if Z.testbit v (Z.of_nat n) then 1 else 0)
                = (v / 2 ^ Z.of_nat n) mod 2).
    { rewrite <- Z.testbit_spec' by lia.
      destruct (Z.testbit v (Z.of_nat n)); reflexivity. }
    rewrite T.
    set (X := v / 2 ^ Z.of_nat n).
    rewrite (Z.rem_mul_r X 2 (2 ^ Z.of_nat k)) by lia.
    lia.
Qed.

(** Reading back, as an unsigned number, what the unsigned branch of
    [reform] wrote: the value modulo [2^length], up to width 31. *)
Lemma reform_unsigned_value (this : binary) (v : Z) :
  useSigned this = false ->
  List.length (bits this) = length this ->
  (length this <= 31)%nat ->
  unsigned (reform_object this v) = v mod 2 ^ Z.of_nat (length this).
Proof.
  intros Hu Hlen Hw.
  rewrite unsigned_prefix_value by exact Hw.
  cbn [reform_object set_bits length bits].
  rewrite (prefix_value_testbits (length this) (length this) v).
  - rewrite Nat.sub_diag. cbn [Z.of_nat]. now rewrite Z.pow_0_r, Z.div_1_r.
  - lia.
  - intros i Hi. unfold bit_at, reform_bits. rewrite Hu. cbn [negb].
    rewrite reform_loop_lookup by lia.
    destruct (decide (i < length this)%nat); [|lia].
    fold (mask_at (length this - 1 - i)).
    rewrite mask_at_pow2 by lia.
    apply truthy_and_pow2. lia.
Qed.

(* ===================================================================== *)
(** ** Running the constructor and the operations on a store *)
(* ===================================================================== *)

Lemma lookup_fresh (h : heap) (o : binary) :
  (h ++ [o]) !! List.length h = Some o.
Proof. now rewrite list_lookup_middle. Qed.

Lemma insert_fresh (h : heap) (o o' : binary) :
  <[List.length h := o']> (h ++ [o]) = h ++ [o'].
Proof.
  replace (List.length h) with (List.length h + 0)%nat at 1 by lia.
  now rewrite insert_app_r.
Qed.

Lemma lookup_old (h g : heap) (r : ref) (o : binary) :
  h !! r = Some o -> (h ++ g) !! r = Some o.
Proof.
  intros H. rewrite lookup_app_l; [exact H|].
  now apply lookup_lt_Some in H.
Qed.

(** [convert] reads the store and never writes it. *)
Lemma convert_heap (data : jsval) (h : heap) : snd (convert data h) = h.
Proof.
  destruct data as [| |r|n|b|s|data|]; cbn; run_monad; try reflexivity.
  - destruct (h !! r); reflexivity.
  - destruct (String.eqb s EmptyString); [reflexivity|].
    destruct (StringToNumber s); reflexivity.
  - destruct (convert_array data); reflexivity.
Qed.

Lemma convert_extend (data : jsval) (h g : heap) :
  in_store h data -> fst (convert data (h ++ g)) = fst (convert data h).
Proof.
  destruct data as [| |r|n|b|s|data|]; cbn; intros H; try reflexivity.
  - run_monad. rewrite lookup_app_l by exact H.
    destruct (h !! r); reflexivity.
  - destruct (String.eqb s EmptyString); [reflexivity|].
    destruct (StringToNumber s); reflexivity.
  - destruct (convert_array data); reflexivity.
Qed.

(** The constructor, step by step: the object is allocated at the end of
    the store; a [null] or [undefined] argument throws at once; otherwise
    the fields are set, the argument is converted (which may throw) and the
    number is reformed into the new object. *)
Lemma constructor_run (size : nat) (argument flag : jsval) (h : heap) :
  constructor size argument flag h =
  match argument with
  | VNull => (inl GivenValueNull, h ++ [fresh_object])
  | VUndefined => (inl GivenValueUndefined, h ++ [fresh_object])
  | _ =>
      let o := blank size (flag_of fresh_object flag) in
      match fst (convert argument (h ++ [o])) with
      | inl e => (inl e, h ++ [o])
      | inr v => (inr (List.length h), h ++ [reform_object o v])
      end
  end.
Proof.
  unfold constructor.
  assert (G : forall arg,
    (do o <- load (List.length h);
     do _ <- store (List.length h) (blank size (flag_of o flag));
     do v <- convert arg;
     reform (List.length h) v) (h ++ [fresh_object])
    = let o := blank size (flag_of fresh_object flag) in
      match fst (convert arg (h ++ [o])) with
      | inl e => (inl e, h ++ [o])
      | inr v => (inr (List.length h), h ++ [reform_object o v])
      end).
  { intros arg. unfold reform. run_monad.
    rewrite lookup_fresh, insert_fresh.
    pose proof (convert_heap arg (h ++ [blank size (flag_of fresh_object flag)]))
      as Hc.
    destruct (convert arg (h ++ [blank size (flag_of fresh_object flag)]))
      as [[e|v] h1]; cbn in Hc; subst h1; cbn [fst]; [reflexivity|].
    now rewrite lookup_fresh, insert_fresh. }
  destruct argument; unfold bind at 1, alloc; cbn beta iota;
    try apply G; reflexivity.
Qed.

(** A constructor call never touches the objects already in the store. *)
Lemma constructor_extends (size : nat) (argument flag : jsval) (h : heap) :
  exists o, snd (constructor size argument flag h) = h ++ [o].
Proof.
  rewrite constructor_run.
  destruct argument; cbn zeta;
    try (eexists; reflexivity);
    match goal with
    | |- context [fst (convert ?a ?h')] =>
        destruct (fst (convert a h')); eexists; reflexivity
    end.
Qed.

Lemma constructor_ok (size : nat) (argument flag : jsval) (h : heap) (v : Z) :
  in_store h argument ->
  fst (convert argument h) = inr v ->
  constructor size argument flag h
  = (inr (List.length h),
     h ++ [reform_object (blank size (flag_of fresh_object flag)) v]).
Proof.
  intros Hin Hc. rewrite constructor_run.
  destruct argument; cbn zeta;
    try (rewrite convert_extend by exact Hin; rewrite Hc; reflexivity);
    cbn in Hc; discriminate.
Qed.

Lemma constructor_error (size : nat) (argument flag : jsval) (h : heap) e :
  in_store h argument ->
  fst (convert argument h) = inl e ->
  exists e' o, constructor size argument flag h = (inl e', h ++ [o]).
Proof.
  intros Hin Hc. rewrite constructor_run.
  destruct argument; cbn zeta;
    try (rewrite convert_extend by exact Hin; rewrite Hc);
    eexists; eexists; reflexivity.
Qed.

(** A static operation on a live target whose operand converts to [v]:
    the operand is rebuilt as a temporary of the target's width and flag,
    the native operator is applied to the two effective values, and the
    result is reformed into the target, which is returned. *)
Lemma operation_ok (op : Z -> Z -> Z) (t : ref) (operand : jsval) (h : heap)
  (tobj : binary) (v : Z) :
  h !! t = Some tobj ->
  in_store h operand ->
  fst (convert operand h) = inr v ->
  let temp := reform_object (blank (length tobj) (useSigned tobj)) v in
  Static.operation op (VBinary t) operand h
  = (inr t,
     <[t := reform_object tobj (op (valueOf tobj) (valueOf temp))]>
       (h ++ [temp])).
Proof.
  intros Ht Hin Hc temp. unfold Static.operation.
  unfold bind at 1. unfold load at 1. rewrite Ht.
  unfold bind at 1.
  rewrite (constructor_ok _ _ _ _ v Hin Hc). cbn [flag_of]. fold temp.
  unfold reform. run_monad.
  rewrite (lookup_old h [temp] t tobj Ht), lookup_fresh.
  rewrite (lookup_old h [temp] t tobj Ht). reflexivity.
Qed.

(** Whatever a static operation throws, the store it leaves behind is the
    one it started from, followed by objects no caller holds. *)
Lemma operation_throws (op : Z -> Z -> Z) (target operand : jsval) (h h' : heap)
  (e : error) :
  Static.operation op target operand h = (inl e, h') ->
  exists garbage, h' = h ++ garbage.
Proof.
  unfold Static.operation.
  destruct target as [| |t| | | | |];
    try (unfold throw; intros [= _ <-]; exists []; now rewrite app_nil_r).
  unfold bind at 1. unfold load at 1.
  destruct (h !! t) as [tobj|] eqn:Ht;
    [|intros [= _ <-]; exists []; now rewrite app_nil_r].
  unfold bind at 1.
  destruct (constructor_extends (length tobj) operand
              (VBoolean (useSigned tobj)) h) as [o Ho].
  destruct (constructor (length tobj) operand (VBoolean (useSigned tobj)) h)
    as [[e1|v] h1]; cbn [snd] in Ho; subst h1.
  - intros [= _ <-]. now exists [o].
  - unfold reform. run_monad.
    rewrite (lookup_old h [o] t tobj Ht).
    destruct ((h ++ [o]) !! v); [|intros [= _ <-]; now exists [o]].
    rewrite (lookup_old h [o] t tobj Ht). intros [=].
Qed.

Lemma not_throws (target : jsval) (h h' : heap) (e : error) :
  Static.not target h = (inl e, h') -> h' = h.
Proof.
  unfold Static.not.
  destruct target as [| |t| | | | |]; try (unfold throw; now intros [= _ <-]).
  unfold bind at 1. unfold load at 1.
  destruct (h !! t) as [tobj|] eqn:Ht; [|now intros [= _ <-]].
  unfold reform. run_monad. rewrite Ht. intros [=].
Qed.

(* ===================================================================== *)
(** ** Vectors are what the constructor and [reform] produce *)
(* ===================================================================== *)

Lemma reform_bits_length (o : binary) (v : Z) :
  List.length (reform_bits o v) = List.length (bits o).
Proof.
  unfold reform_bits.
  destruct (useSigned o); cbn [negb]; [|apply reform_loop_length].
  destruct (v <? 0); rewrite ?length_insert; apply reform_loop_length.
Qed.

Lemma vector_blank (w : nat) (f : bool) : vector w (blank w f).
Proof.
  unfold vector, blank. cbn. rewrite length_replicate. auto.
Qed.

Lemma vector_reform (w : nat) (o : binary) (v : Z) :
  vector w o -> vector w (reform_object o v).
Proof.
  intros (H1 & H2 & H3 & H4 & H5). unfold vector, reform_object, set_bits.
  cbn. rewrite reform_bits_length. auto.
Qed.

(** Construction leaves the new instance at the declared width. *)
Lemma constructor_vector (size : nat) (argument flag : jsval) (h h' : heap)
  (r : ref) :
  constructor size argument flag h = (inr r, h') ->
  exists o, h' !! r = Some o /\ vector size o.
Proof.
  rewrite constructor_run.
  destruct argument; cbn zeta; try discriminate;
    match goal with
    | |- context [fst (convert ?a ?s)] =>
        destruct (fst (convert a s)); [discriminate|]
    end;
    intros [= <- <-]; eexists; (split; [apply lookup_fresh|]);
    apply vector_reform, vector_blank.
Qed.

(* ===================================================================== *)
(** ** Unsigned construction and read-back *)
(* ===================================================================== *)

(** Up to width 31, an unsigned instance built from a number in range
    reads back as that number. *)
Lemma construct_unsigned_read_back (w : nat) (v : Z) (h : heap) :
  (1 <= w <= 31)%nat ->
  0 <= v <= 2 ^ Z.of_nat w - 1 ->
  exists o,
    constructor w (VNumber v) (VBoolean false) h
    = (inr (List.length h), h ++ [o]) /\
    vector w o /\ useSigned o = false /\ unsigned o = v.
Proof.
  intros Hw Hv.
  exists (reform_object (blank w false) v). split; [|split; [|split]].
  - now apply constructor_ok.
  - apply vector_reform, vector_blank.
  - reflexivity.
  - rewrite reform_unsigned_value; cbn; rewrite ?length_replicate; try lia;
      try reflexivity.
    apply Z.mod_small. lia.
Qed.

(** *** Width 32: the top weight is negative *)

Lemma testbit_31 (x : Z) :
  - 2 ^ 31 <= x < 2 ^ 31 -> Z.testbit x 31 = (x <? 0).
Proof.
  intros H.
  destruct (Z.ltb_spec x 0) as [Hneg|Hpos].
  - apply Z.testbit_true; [lia|].
    replace (x / 2 ^ 31) with (-1); [reflexivity|].
    apply Z.div_unique with (r := x + 2 ^ 31); lia.
  - apply Z.testbit_false; [lia|].
    rewrite Z.div_small by lia. reflexivity.
Qed.

Lemma truthy_and_sign (v : Z) :
  Int32.truthy (Int32.and v (- 2 ^ 31)) = Z.testbit v 31.
Proof.
  unfold Int32.and, Int32.truthy.
  rewrite <- (ToInt32_testbit v 31) by lia.
  pose proof (ToInt32_range v) as R.
  set (x := Int32.ToInt32 v) in *.
  change (Int32.ToInt32 (- 2 ^ 31)) with (Z.shiftl (-1) 31).
  rewrite (testbit_31 x R).
  destruct (Z.ltb_spec x 0) as [Hneg|Hpos].
  - destruct (Z.eqb_spec (Z.land x (Z.shiftl (-1) 31)) 0) as [E|E];
      [|reflexivity].
    apply (f_equal (fun z => Z.testbit z 31)) in E.
    rewrite Z.land_spec, (testbit_31 x R) in E.
    destruct (Z.ltb_spec x 0); [|lia]. discriminate E.
  - replace (Z.land x (Z.shiftl (-1) 31)) with 0; [reflexivity|].
    symmetry. apply Z.bits_inj'. intros n Hn.
    rewrite Z.land_spec, Z.bits_0.
    destruct (Z.lt_ge_cases n 31) as [Hlt|Hge].
    + rewrite Z.shiftl_spec_low by lia. apply andb_false_r.
    + rewrite <- (Z.mod_small x (2 ^ 31)) by lia.
      rewrite Z.mod_pow2_bits_high by lia. reflexivity.
Qed.

Lemma truthy_and_mask_at (v : Z) (j : nat) :
  (j <= 31)%nat ->
  Int32.truthy (Int32.and v (mask_at j)) = Z.testbit v (Z.of_nat j).
Proof.
  intros H. destruct (decide (j = 31)%nat) as [->|Hne].
  - change (mask_at 31) with (- 2 ^ 31). apply truthy_and_sign.
  - rewrite mask_at_pow2 by lia. apply truthy_and_pow2. lia.
Qed.

(** The bits the unsigned branch of [reform] writes, up to width 32. *)
Lemma reform_unsigned_bit (this : binary) (v : Z) (i : nat) :
  useSigned this = false ->
  List.length (bits this) = length this ->
  (length this <= 32)%nat ->
  (i < length this)%nat ->
  bit_at (reform_bits this v) i
  = Z.testbit v (Z.of_nat (length this - 1 - i)).
Proof.
  intros Hu Hlen Hw Hi. unfold bit_at, reform_bits. rewrite Hu. cbn [negb].
  rewrite reform_loop_lookup by lia.
  destruct (decide (i < length this)%nat); [|lia].
  fold (mask_at (length this - 1 - i)).
  apply truthy_and_mask_at. lia.
Qed.

Lemma unsigned_loop_wrap k (j : nat) number l :
  (1 <= k)%nat -> (j + k = 32)%nat ->
  unsigned_loop k (mask_at j) number l
  = number + 2 ^ Z.of_nat j * prefix_value k l
    - (if bit_at l 0 then 2 ^ 32 else 0).
Proof.
  revert j number. induction k as [|k IH]; intros j number Hk Hj; [lia|].
  cbn [unsigned_loop prefix_value].
  destruct k as [|k'].
  - assert (j = 31)%nat as -> by lia.
    change (mask_at 31) with (- 2 ^ 31). cbn [unsigned_loop prefix_value].
    destruct (bit_at l 0); lia.
  - change (Int32.shl (mask_at j) 1) with (mask_at (S j)).
    rewrite IH by lia.
    rewrite (mask_at_pow2 j) by lia.
    rewrite Nat2Z.inj_succ, Z.pow_succ_r by lia.
    cbn [prefix_value].
    destruct (bit_at l (S k')), (bit_at l 0); lia.
Qed.

Lemma ToInt32_testbit_31 (v : Z) :
  Int32.ToInt32 v = v mod 2 ^ 32 - (if Z.testbit v 31 then 2 ^ 32 else 0).
Proof.
  rewrite <- (ToInt32_testbit v 31) by lia.
  rewrite (testbit_31 _ (ToInt32_range v)).
  pose proof (ToInt32_range v) as R.
  pose proof (ToInt32_eqm v) as E.
  pose proof (Z.mod_pos_bound v (2 ^ 32) ltac:(lia)) as B.
  set (x := Int32.ToInt32 v) in *.
  destruct (Z.ltb_spec x 0) as [Hneg|Hpos].
  - rewrite <- E.
    replace x with (x + 2 ^ 32 + (-1) * 2 ^ 32) at 2 by lia.
    rewrite Z.mod_add by lia. rewrite Z.mod_small by lia. lia.
  - rewrite <- E. rewrite Z.mod_small by lia. lia.
Qed.

(** At width 32 an unsigned instance reads back as the 32-bit signed
    value of its seed: seeds from 2^31 on come back negative. *)
Lemma construct_unsigned_width_32 (v : Z) (h : heap) :
  exists o,
    constructor 32 (VNumber v) (VBoolean false) h
    = (inr (List.length h), h ++ [o]) /\
    unsigned o = Int32.ToInt32 v /\
    (2 ^ 31 <= v <= 2 ^ 32 - 1 -> unsigned o = v - 2 ^ 32).
Proof.
  exists (reform_object (blank 32 false) v).
  split; [now apply constructor_ok|].
  assert (U : unsigned (reform_object (blank 32 false) v) = Int32.ToInt32 v).
  { unfold unsigned. cbn [reform_object set_bits length bits blank].
    change 1 with (mask_at 0) at 1.
    rewrite unsigned_loop_wrap by lia.
    rewrite (prefix_value_testbits 32 32 v) by
      (try lia; intros i Hi;
       apply (reform_unsigned_bit (blank 32 false) v i);
       cbn; rewrite ?length_replicate; auto; lia).
    rewrite (reform_unsigned_bit (blank 32 false) v 0)
      by (cbn; rewrite ?length_replicate; auto; lia).
    cbn [length blank]. rewrite ToInt32_testbit_31.
    change (Z.of_nat (32 - 1 - 0)) with 31.
    change (Z.of_nat (32 - 32)) with 0.
    change (Z.of_nat 32) with 32.
    rewrite Z.pow_0_r, Z.div_1_r. cbn [Z.of_nat]. lia. }
  split; [exact U|].
  intros Hv. rewrite U. unfold Int32.ToInt32.
  replace (v + 2 ^ 31) with (v - 2 ^ 31 + 1 * 2 ^ 32) by lia.
  rewrite Z.mod_add by lia. rewrite Z.mod_small by lia. lia.
Qed.

(** C1, at the width where it fails.  [new binary(32, 2147483648, false)]
    stores the bit pattern 1000...0, and its [unsigned] accessor returns
    -2147483648: the weight of index 0 is the result of [mask <<= 1] on
    2^30, which the 32-bit shift wraps to -2^31.  The seed 2^31 lies in
    [0, 2^32 - 1], so the value read back is not the seed. *)
Theorem unsigned_wraps_at_width_32 :
  run (do b <- constructor 32 (VNumber 2147483648) (VBoolean false);
       read b unsigned) = inr (-2147483648)
  /\ run (do b <- constructor 32 (VNumber 2147483648) (VBoolean false);
          read b bits) = inr (true :: replicate 31 false)
  /\ 0 <= 2147483648 <= 2 ^ 32 - 1.
Proof.
  split; [|split]; [vm_compute; reflexivity ..|lia].
Qed.

(* ===================================================================== *)
(** ** The signed decode *)
(* ===================================================================== *)

Lemma math_masks (w : nat) :
  (1 <= w <= 31)%nat ->
  math_halfMask w = 2 ^ (Z.of_nat w - 1) - 1 /\
  math_signMask w = 2 ^ (Z.of_nat w - 1) - 1.
Proof.
  intros H.
  assert (C : exists n, w = S n /\ (n < 31)%nat) by (exists (pred w); lia).
  destruct C as (n & -> & Hn).
  do 31 (destruct n as [|n]; [vm_compute; split; reflexivity|]).
  lia.
Qed.

Lemma vector_unsigned_range (w : nat) (o : binary) :
  (w <= 31)%nat -> vector w o -> 0 <= unsigned o < 2 ^ Z.of_nat w.
Proof.
  intros Hw (H1 & _). rewrite unsigned_prefix_value by lia.
  rewrite H1. apply prefix_value_range.
Qed.

Lemma signed_spec_signed (w : nat) (o : binary) :
  vector w o -> signed o = signed_of_unsigned w (unsigned o).
Proof.
  intros (H1 & H2 & H3 & H4 & H5).
  unfold signed, signed_of_unsigned, signedMask_of_size, decimalMask_of_size.
  rewrite H3, H4. unfold Int32.truthy.
  destruct (_ =? 0); reflexivity.
Qed.

Lemma spec_signed_math_signed (w : nat) (u : Z) :
  (1 <= w <= 31)%nat -> 0 <= u < 2 ^ Z.of_nat w ->
  signed_of_unsigned w u = math_signed w u.
Proof.
  intros Hw Hu.
  destruct (math_masks w Hw) as [Eh Es].
  destruct (low_masks w Hw) as [Lh Ls].
  unfold signed_of_unsigned, math_signed, signedMask_of_size,
    decimalMask_of_size.
  rewrite Ls, Lh, Es, Eh.
  assert (P : 0 < 2 ^ (Z.of_nat w - 1)) by (apply Z.pow_pos_nonneg; lia).
  assert (B : 2 ^ Z.of_nat w <= 2 ^ 31)
    by (apply Z.pow_le_mono_r; lia).
  assert (B' : 2 ^ (Z.of_nat w - 1) <= 2 ^ 31)
    by (apply Z.pow_le_mono_r; lia).
  unfold Int32.and.
  rewrite (ToInt32_id u), (ToInt32_id (2 ^ _ - 1))
    by lia.
  reflexivity.
Qed.

(** At width 32 the 32-bit [>>] turns the all-ones mask 2^32 - 1 into -1,
    not into 2^31 - 1: both masks of the code are -1 there, while the
    claim's are 2^31 - 1. *)
Lemma masks_at_width_32 :
  decimalMask_of_size 32 = -1 /\ signedMask_of_size 32 = -1 /\
  math_halfMask 32 = 2 ^ 31 - 1 /\ math_signMask 32 = 2 ^ 31 - 1.
Proof. repeat split; vm_compute; reflexivity. Qed.

(** Up to width 31 the [signed] accessor is the decode the claim words:
    the masks of the code are the claim's, [2^(w-1) - 1] both. *)
Lemma signed_decode_up_to_width_31 (w : nat) (o : binary) :
  (1 <= w <= 31)%nat -> vector w o ->
  signed o = math_signed w (unsigned o).
Proof.
  intros Hw Hv. rewrite (signed_spec_signed w o Hv).
  apply spec_signed_math_signed; [lia|].
  apply vector_unsigned_range; [lia | exact Hv].
Qed.

(** A width-8 vector holding 218 decodes to -37, as the claim says. *)
Lemma signed_decode_218 (o : binary) :
  vector 8 o -> unsigned o = 218 -> signed o = -37.
Proof.
  intros Hv Hu.
  rewrite (signed_decode_up_to_width_31 8 o ltac:(lia) Hv), Hu.
  reflexivity.
Qed.

(** C2, at the width where it fails.  The claim's masks at width 32 are
    [mask = 2^32 - 1], [halfMask = mask >> 1 = 2^31 - 1] and
    [signMask = 2^31 - 1]; the constructor's [this.mask >> 1] is a 32-bit
    shift, which reads 2^32 - 1 as -1 and gives -1 for both masks.  So
    [new binary(32, 5, false)], which stores 0...0101 and whose [unsigned]
    accessor returns 5, has the [signed] accessor return 6, where the
    claim's decode of 5 is [-(2^31 - 1) + 5 = -2147483642]; built signed,
    its [valueOf()] is 6 as well. *)
Theorem signed_decode_wrong_at_width_32 :
  run (do b <- constructor 32 (VNumber 5) (VBoolean false);
       read b bits) = inr (replicate 29 false ++ [true; false; true])
  /\ run (do b <- constructor 32 (VNumber 5) (VBoolean false);
          read b unsigned) = inr 5
  /\ run (do b <- constructor 32 (VNumber 5) (VBoolean false);
          read b signed) = inr 6
  /\ run (do b <- constructor 32 (VNumber 5) (VBoolean true);
          read b valueOf) = inr 6
  /\ run (do b <- constructor 32 (VNumber 5) (VBoolean false);
          read b decimalMask) = inr (-1)
  /\ run (do b <- constructor 32 (VNumber 5) (VBoolean false);
          read b signedMask) = inr (-1)
  /\ spec_mask 32 = 2 ^ 32 - 1
  /\ math_halfMask 32 = 2 ^ 31 - 1
  /\ math_signMask 32 = 2 ^ 31 - 1
  /\ math_signed 32 5 = -2147483642.
Proof. repeat split; vm_compute; reflexivity. Qed.

(* ===================================================================== *)
(** ** Array seeds *)
(* ===================================================================== *)

(** C3, at inputs where it fails.  A width-8 unsigned instance built from
    ten [true]s holds 00000001, not the last eight elements 11111111; built
    from four [true]s it holds 00000001, not 00001111; and the array of
    the repository's own test [CREATE boolean[]], which expects 218, gives
    0.  In the array branch of [convert] every element is and-ed with the
    running mask as the number 1 or 0, so only the last element, whose mask
    is 1, contributes. *)
Theorem boolean_array_keeps_last_element_only :
  run (do b <- constructor 8 (VArray (EBoolean <$> replicate 10 true))
                 (VBoolean false);
       read b bits)
  = inr [false; false; false; false; false; false; false; true]
  /\ drop 2 (replicate 10 true) = replicate 8 true
  /\ run (do b <- constructor 8 (VArray (EBoolean <$> replicate 4 true))
                    (VBoolean false);
          read b bits)
     = inr [false; false; false; false; false; false; false; true]
  /\ run (do b <- constructor 8
                    (VArray (EBoolean <$> [true; true; false; true;
                                           true; false; true; false]))
                    (VBoolean false);
          read b valueOf)
     = inr 0.
Proof. repeat split; vm_compute; reflexivity. Qed.

(* ===================================================================== *)
(** ** Arithmetic on unsigned vectors *)
(* ===================================================================== *)

(** A static operation on an unsigned target of width at most 31: the
    operand enters as its value modulo [2^w], and the target ends up
    holding the native result modulo [2^w]. *)
Lemma operation_unsigned (op : Z -> Z -> Z) (w : nat) (h : heap) (t : ref)
  (tobj : binary) (operand : jsval) (n : Z) :
  (w <= 31)%nat ->
  h !! t = Some tobj -> vector w tobj -> useSigned tobj = false ->
  in_store h operand -> fst (convert operand h) = inr n ->
  exists h' o',
    Static.operation op (VBinary t) operand h = (inr t, h') /\
    h' !! t = Some o' /\ vector w o' /\ useSigned o' = false /\
    unsigned o'
    = op (unsigned tobj) (n mod 2 ^ Z.of_nat w) mod 2 ^ Z.of_nat w.
Proof.
  intros Hw Ht Hv Hu Hin Hc.
  pose proof Hv as (H1 & H2 & H3 & H4 & H5).
  rewrite (operation_ok op t operand h tobj n Ht Hin Hc).
  eexists; eexists. split; [reflexivity|].
  split; [apply list_lookup_insert_eq; rewrite length_app;
          apply lookup_lt_Some in Ht; lia|].
  split; [now apply vector_reform|].
  split; [exact Hu|].
  rewrite reform_unsigned_value by (rewrite ?H5, ?H1; auto; lia).
  rewrite H1. f_equal. unfold valueOf at 1. rewrite Hu. f_equal.
  unfold valueOf. cbn [useSigned reform_object set_bits blank].
  rewrite reform_unsigned_value;
    cbn; rewrite ?length_replicate; auto; lia.
Qed.



(* ===================================================================== *)
(** ** [toArray] followed by [fromArray] *)
(* ===================================================================== *)

Lemma toArray_loop_spec (n index : nat) (array l : list bool) :
  toArray_loop n index array l = array ++ (bit_at l <$> seq index n).
Proof.
  revert index array. induction n as [|n IH]; intros index array.
  - cbn. now rewrite app_nil_r.
  - cbn [toArray_loop seq fmap list_fmap]. rewrite IH, <- app_assoc.
    reflexivity.
Qed.

(** [toArray] is a snapshot of the bits. *)
Lemma toArray_bits (w : nat) (o : binary) : vector w o -> toArray o = bits o.
Proof.
  intros (H1 & _ & _ & _ & H5). unfold toArray.
  rewrite toArray_loop_spec. cbn [app]. rewrite H1.
  apply list_eq. intros i. rewrite list_lookup_fmap.
  destruct (decide (i < w)%nat) as [Hi|Hi].
  - rewrite lookup_seq_lt by lia. cbn. unfold bit_at.
    destruct (lookup_lt_is_Some_2 (bits o) i ltac:(lia)) as [b Hb].
    now rewrite Hb.
  - rewrite lookup_seq_ge by lia. cbn.
    symmetry. apply lookup_ge_None_2. lia.
Qed.

(** A mask that has been shifted at least once has bit 0 clear, so the
    number 0 or 1 and-ed with it is 0. *)
Lemma and_bit_shifted (b : bool) (x : Z) :
  Int32.and (if b then 1 else 0) (Int32.shl x 1) = 0.
Proof.
  unfold Int32.and, Int32.shl.
  change (Int32.ToUint32 1 mod 32) with 1.
  destruct b; [|reflexivity].
  rewrite (ToInt32_id 1) by lia.
  rewrite (ToInt32_id (Int32.ToInt32 _)) by apply ToInt32_range.
  set (y := Z.shiftl (Int32.ToInt32 x) 1).
  replace (Z.land 1 (Int32.ToInt32 y))
    with (Z.land (Int32.ToInt32 y) (Z.ones 1))
    by (rewrite Z.land_comm; reflexivity).
  rewrite Z.land_ones by lia.
  rewrite (ToInt32_mod_pow2 y 1) by lia.
  subst y. rewrite Z.shiftl_mul_pow2 by lia.
  apply Z.mod_mul. lia.
Qed.

Lemma and_bit_one (b : bool) :
  Int32.and (if b then 1 else 0) 1 = if b then 1 else 0.
Proof. destruct b; reflexivity. Qed.

Lemma convert_loop_shifted (k : nat) (x v : Z) (l : list bool) :
  convert_loop k (Int32.shl x 1) v boolean_term (EBoolean <$> l) = v.
Proof.
  revert x v. induction k as [|k IH]; intros x v; [reflexivity|].
  cbn [convert_loop]. rewrite IH. unfold boolean_term.
  rewrite and_bit_shifted. lia.
Qed.

(** The array branch of [convert] on a sequence of booleans: the last
    element alone decides the number. *)
Lemma convert_array_booleans (l : list bool) :
  l <> [] ->
  convert_array (EBoolean <$> l)
  = inr (if bit_at l (List.length l - 1) then 1 else 0).
Proof.
  intros Hl.
  assert (E : forall data,
             data <> [] ->
             forallb is_boolean data = true ->
             forallb is_number data = false ->
             forallb is_numeric_string data = false ->
             convert_array data
             = inr (convert_loop (List.length data) 1 0 boolean_term data)).
  { intros data. destruct data as [|e es]; [congruence|].
    unfold convert_array. intros _ -> -> ->. reflexivity. }
  destruct l as [|b0 l0] eqn:El; [congruence|]. rewrite <- El.
  assert (Hlen : List.length l = S (List.length l0))
    by (rewrite El; reflexivity).
  rewrite E.
  - f_equal. rewrite length_fmap, Hlen. cbn [convert_loop].
    rewrite convert_loop_shifted. unfold boolean_term.
    replace (S (List.length l0) - 1)%nat with (List.length l0) by lia.
    unfold elem_at, bit_at. rewrite list_lookup_fmap.
    destruct (l !! List.length l0) as [b|] eqn:Eb; cbn.
    + rewrite and_bit_one. lia.
    + apply lookup_ge_None_1 in Eb. lia.
  - rewrite El. discriminate.
  - clear. induction l; cbn; auto.
  - rewrite El. reflexivity.
  - rewrite El. reflexivity.
Qed.

Lemma fromArray_ok (x : ref) (array : jsval) (h : heap) (o : binary) (v : Z) :
  h !! x = Some o ->
  fst (convert array h) = inr v ->
  Method.fromArray x array h = (inr x, <[x := reform_object o v]> h).
Proof.
  intros Hx Hc. unfold Method.fromArray, reform.
  pose proof (convert_heap array h) as Hh.
  unfold bind at 1.
  destruct (convert array h) as [[e|v'] h1]; cbn in Hc, Hh; subst h1;
    [discriminate|].
  injection Hc as ->. run_monad. now rewrite Hx.
Qed.

Lemma and_bit_decimalMask (w : nat) (b : bool) :
  (1 <= w <= 32)%nat ->
  Int32.and (if b then 1 else 0) (Int32.sar (mask_of_size w) 1)
  = if b && (2 <=? w)%nat then 1 else 0.
Proof.
  intros H.
  assert (C : exists n, w = S n /\ (n < 32)%nat) by (exists (pred w); lia).
  destruct C as (n & -> & Hn).
  do 32 (destruct n as [|n]; [destruct b; vm_compute; reflexivity|]).
  lia.
Qed.

(** What [reform] writes for the numbers 0 and 1: zeros, and the number
    itself in the last position -- except that the signed branch, which
    masks every weight with [decimalMask], loses it at width 1. *)
Lemma reform_bits_bit (w : nat) (o : binary) (b : bool) :
  (1 <= w <= 32)%nat -> vector w o ->
  reform_bits o (if b then 1 else 0)
  = replicate (w - 1) false ++ [b && (negb (useSigned o) || (2 <=? w)%nat)].
Proof.
  intros Hw (H1 & H2 & H3 & H4 & H5).
  set (f := fun m : Z => Int32.shl m 1).
  assert (Hshift : forall j, (0 < j)%nat -> exists x, Nat.iter j f 1 = Int32.shl x 1).
  { intros j Hj. destruct j as [|j]; [lia|]. eexists. reflexivity. }
  assert (Hneg : ((if b then 1 else 0) <? 0) = false) by (now destruct b).
  assert (Htruthy : forall c : bool, Int32.truthy (if c then 1 else 0) = c)
    by (now intros []).
  apply list_eq. intros i. unfold reform_bits. rewrite H1, H3, Hneg.
  destruct (useSigned o); cbn [negb orb];
    rewrite reform_loop_lookup by lia; fold f.
  - (* signed *)
    destruct (decide (i < w)%nat) as [Hi|Hi].
    + destruct (decide (i = w - 1)%nat) as [->|Hne].
      * replace (w - 1 - (w - 1))%nat with 0%nat by lia. cbn [Nat.iter].
        rewrite and_bit_one, and_bit_decimalMask, Htruthy by lia.
        rewrite list_lookup_middle by (rewrite length_replicate; lia).
        reflexivity.
      * destruct (Hshift (w - 1 - i)%nat ltac:(lia)) as [x ->].
        rewrite and_bit_shifted.
        rewrite lookup_app_l by (rewrite length_replicate; lia).
        rewrite lookup_replicate_2 by lia. reflexivity.
    + rewrite lookup_ge_None_2 by lia. symmetry.
      apply lookup_ge_None_2. rewrite length_app, length_replicate. cbn. lia.
  - (* unsigned *)
    destruct (decide (i < w)%nat) as [Hi|Hi].
    + destruct (decide (i = w - 1)%nat) as [->|Hne].
      * replace (w - 1 - (w - 1))%nat with 0%nat by lia. cbn [Nat.iter].
        rewrite and_bit_one, Htruthy, andb_true_r.
        rewrite list_lookup_middle by (rewrite length_replicate; lia).
        reflexivity.
      * destruct (Hshift (w - 1 - i)%nat ltac:(lia)) as [x ->].
        rewrite and_bit_shifted.
        rewrite lookup_app_l by (rewrite length_replicate; lia).
        rewrite lookup_replicate_2 by lia. reflexivity.
    + rewrite lookup_ge_None_2 by lia. symmetry.
      apply lookup_ge_None_2. rewrite length_app, length_replicate. cbn. lia.
Qed.

(** Construction from any non-empty sequence of booleans, at any width
    from 1 to 32: all bits are clear except the last, which is the last
    element of the sequence. *)
Lemma constructor_boolean_array (w : nat) (l : list bool) (h : heap) :
  (1 <= w <= 32)%nat -> l <> [] ->
  exists o,
    constructor w (VArray (EBoolean <$> l)) (VBoolean false) h
    = (inr (List.length h), h ++ [o]) /\
    vector w o /\
    bits o = replicate (w - 1) false ++ [bit_at l (List.length l - 1)].
Proof.
  intros Hw Hl.
  set (b := bit_at l (List.length l - 1)).
  exists (reform_object (blank w false) (if b then 1 else 0)).
  split; [|split].
  - apply constructor_ok; [exact I|].
    cbn [convert]. now rewrite convert_array_booleans.
  - apply vector_reform, vector_blank.
  - cbn [reform_object set_bits bits].
    rewrite (reform_bits_bit w (blank w false) b Hw (vector_blank w false)).
    cbn [useSigned blank negb orb]. now rewrite andb_true_r.
Qed.

(** What [x.fromArray(x.toArray())] leaves in a vector [x] of width 1 to
    32: the call returns [x], and every bit of [x] is clear but the last,
    which keeps its value (unless [x] is signed and of width 1).  The
    array branch of [convert] passes on the last element only. *)
Lemma fromArray_toArray_bits (w : nat) (h : heap) (x : ref) (o : binary) :
  (1 <= w <= 32)%nat ->
  h !! x = Some o ->
  vector w o ->
  Method.fromArray x (VArray (EBoolean <$> toArray o)) h
  = (inr x,
     <[x := set_bits o
              (replicate (w - 1) false
                 ++ [bit_at (bits o) (w - 1)
                     && (negb (useSigned o) || (2 <=? w)%nat)])]> h).
Proof.
  intros Hw Hx Hv.
  pose proof Hv as (H1 & H2 & H3 & H4 & H5).
  set (b := bit_at (bits o) (w - 1)).
  assert (Hc : fst (convert (VArray (EBoolean <$> toArray o)) h)
               = inr (if b then 1 else 0)).
  { rewrite (toArray_bits w o Hv). cbn [convert].
    rewrite convert_array_booleans.
    - rewrite H5. reflexivity.
    - intros E. rewrite E in H5. cbn in H5. lia. }
  rewrite (fromArray_ok x _ h o _ Hx Hc).
  unfold reform_object. now rewrite (reform_bits_bit w o b Hw Hv).
Qed.

(** C5, at an input where it fails.  The unsigned width-8 vector 11011010
    (218) comes back from [x.fromArray(x.toArray())] as 00000000, and
    11111111 (255) comes back as 00000001: [toArray] returns the eight
    bits, but the array branch of [convert] and-s every element, as the
    number 1 or 0, with the running mask, so only the last element, whose
    mask is 1, reaches [reform].  The call does not throw and returns the
    receiver. *)
Theorem fromArray_toArray_loses_upper_bits :
  run (do x <- constructor 8 (VNumber 218) (VBoolean false);
       read x toArray)
  = inr [true; true; false; true; true; false; true; false]
  /\ run (do x <- constructor 8 (VNumber 218) (VBoolean false);
          do a <- read x toArray;
          do y <- Method.fromArray x (VArray (EBoolean <$> a));
          read y bits)
     = inr [false; false; false; false; false; false; false; false]
  /\ run (do x <- constructor 8 (VNumber 218) (VBoolean false);
          do a <- read x toArray;
          do y <- Method.fromArray x (VArray (EBoolean <$> a));
          ret (Nat.eqb x y))
     = inr true
  /\ run (do x <- constructor 8 (VNumber 255) (VBoolean false);
          do a <- read x toArray;
          do _ <- Method.fromArray x (VArray (EBoolean <$> a));
          read x bits)
     = inr [false; false; false; false; false; false; false; true].
Proof. repeat split; vm_compute; reflexivity. Qed.

(* ===================================================================== *)
(** ** [copy] *)
(* ===================================================================== *)

(** [copy] allocates: the result is a new reference, the objects already
    in the store, the original among them, are untouched, and the new
    object is unsigned whatever the original's flag. *)
Lemma copy_allocates (h : heap) (x : ref) (o : binary) :
  h !! x = Some o ->
  Method.copy x h
  = (inr (List.length h),
     h ++ [reform_object (blank (length o) false) (valueOf o)]).
Proof.
  intros Hx. unfold Method.copy. unfold bind at 1. unfold load at 1.
  rewrite Hx.
  apply constructor_ok.
  - cbn. now apply lookup_lt_Some in Hx.
  - cbn. run_monad. now rewrite Hx.
Qed.

(** C6, at an input where it fails.  The signed width-8 vector 00000001
    has effective value -126; its [copy] is built by
    [new binary(this.length, this)], without the flag, so the copy is
    unsigned and holds the low 8 bits of -126, 10000010.  The original is
    left as it was, at another reference. *)
Theorem copy_drops_signedness :
  run (do x <- constructor 8 (VNumber 1) (VBoolean true);
       do c <- Method.copy x;
       do xo <- load x;
       do co <- load c;
       ret (bits xo, useSigned xo, valueOf xo,
            (bits co, useSigned co, length co), Nat.eqb x c))
  = inr ([false; false; false; false; false; false; false; true], true, -126,
         ([true; false; false; false; false; false; true; false], false,
          8%nat), false).
Proof. vm_compute. reflexivity. Qed.

(* ===================================================================== *)
(** ** [toHexadecimalString] *)
(* ===================================================================== *)

(** C7, where it fails.  The guard [end < stringified.length] is false
    for the last chunk of every string, so the number of that chunk stays
    0 and its digit is always '0': the width-8 vector 11011010 renders as
    "0x30", where counting the set bits of both chunks would give
    "0x32" (and the repository's test expects "0xDA"). *)
Theorem last_hex_digit_is_zero :
  (forall stringified : string,
      chunk_number stringified (ceil_div4 (String.length stringified) - 1) = 0)
  /\ run (do b <- constructor 8 (VNumber 218) (VBoolean false);
          read b (fun o => toHexadecimalString o true))
     = inr "0x30"%string
  /\ run (do b <- constructor 8 (VNumber 218) (VBoolean false);
          read b (fun o => toBinaryString o false))
     = inr "11011010"%string
  /\ (chunk_loop 4 0 0 "11011010", chunk_loop 4 4 0 "11011010") = (3, 2).
Proof.
  split; [|repeat split; vm_compute; reflexivity].
  intros s. unfold chunk_number, ceil_div4.
  set (n := String.length s).
  destruct (Nat.ltb_spec (((n + 3) / 4 - 1) * 4 + 4) n) as [Hlt|Hge];
    [|reflexivity].
  exfalso.
  pose proof (Nat.div_mod_eq (n + 3) 4) as E.
  pose proof (Nat.mod_upper_bound (n + 3) 4 ltac:(lia)) as B.
  lia.
Qed.

(* ===================================================================== *)
(** ** A vector as operand of [add] and [subtract] *)
(* ===================================================================== *)

(** C8 as stated fails.  With an unsigned width-8 receiver holding 0xA9
    and a signed width-8 operand whose bits are 11011010 (effective value
    -37), the temporary that [add] builds from the operand has effective
    value 219, and 219 is what enters the native sum.  With a signed
    width-8 receiver holding 0 and an unsigned operand holding 218, the
    receiver ends as 11011011, where adding the operand's own effective
    value 218 and reforming would give 01011010. *)
Lemma operand_is_recoded_per_receiver :
  run (do a <- constructor 8 (VNumber 169) (VBoolean false);
       do b <- constructor 8 (VNumber 218) (VBoolean false);
       do _ <- set_useSigned b true;
       do own <- read b valueOf;
       do _ <- Method.add a (VBinary b);
       do contributed <- read 2%nat valueOf;
       ret (own, contributed))
  = inr (-37, 219)
  /\ run (do s <- constructor 8 (VNumber 0) (VBoolean true);
          do u <- constructor 8 (VNumber 218) (VBoolean false);
          do own <- read u valueOf;
          do before <- load s;
          do _ <- Method.add s (VBinary u);
          do after <- read s bits;
          ret (own, after,
               bits (reform_object before (valueOf before + own))))
     = inr (218,
            [true; true; false; true; true; false; true; true],
            [false; true; false; true; true; false; true; false]).
Proof. split; vm_compute; reflexivity. Qed.

(** C8, as the code has it.  When the operand of [add] or [subtract] is a
    vector, its effective value, decoded per its own flag, is reformed into
    a temporary vector of the receiver's width and the receiver's flag; the
    temporary's effective value is what enters the native sum or
    difference, and the result is reformed into the receiver per the
    receiver's flag.  For an unsigned receiver of width [w], up to 31, the
    temporary's effective value is the operand's modulo [2^w]. *)
Theorem add_subtract_vector_operand (h : heap) (this r : ref) (o ro : binary) :
  h !! this = Some o ->
  h !! r = Some ro ->
  let temp := reform_object (blank (length o) (useSigned o)) (valueOf ro) in
  Method.add this (VBinary r) h
  = (inr this,
     <[this := reform_object o (valueOf o + valueOf temp)]> (h ++ [temp])) /\
  Method.subtract this (VBinary r) h
  = (inr this,
     <[this := reform_object o (valueOf o - valueOf temp)]> (h ++ [temp])) /\
  length temp = length o /\ useSigned temp = useSigned o /\
  (forall w, (1 <= w <= 31)%nat -> vector w o -> useSigned o = false ->
             valueOf temp = valueOf ro mod 2 ^ Z.of_nat w).
Proof.
  intros Ht Hr temp.
  assert (Hin : in_store h (VBinary r))
    by (cbn; now apply lookup_lt_Some in Hr).
  assert (Hc : fst (convert (VBinary r) h) = inr (valueOf ro))
    by (cbn; run_monad; now rewrite Hr).
  split; [|split; [|split; [|split]]].
  - exact (operation_ok Z.add this (VBinary r) h o (valueOf ro) Ht Hin Hc).
  - exact (operation_ok Z.sub this (VBinary r) h o (valueOf ro) Ht Hin Hc).
  - reflexivity.
  - reflexivity.
  - intros w Hw (H1 & _) Hu. subst temp. rewrite Hu, H1.
    unfold valueOf. cbn [useSigned reform_object set_bits blank].
    rewrite reform_unsigned_value;
      cbn; rewrite ?length_replicate; auto; lia.
Qed.

Lemma add_subtract_vector_operand_witness :
  let a := mkBinary 8 255 127 127 false
             [true; false; true; false; true; false; false; true] in
  let b := mkBinary 8 255 127 127 true
             [true; true; false; true; true; false; true; false] in
  let temp := reform_object (blank 8 false) (valueOf b) in
  valueOf b = -37 /\ valueOf temp = 219 /\
  Method.add 0%nat (VBinary 1%nat) [a; b]
  = (inr 0%nat,
     <[0%nat := reform_object a (valueOf a + valueOf temp)]> ([a; b] ++ [temp])).
Proof.
  intros a b temp.
  split; [reflexivity|]. split; [reflexivity|].
  exact (proj1 (add_subtract_vector_operand [a; b] 0%nat 1%nat a b
                  eq_refl eq_refl)).
Defined.

(* ===================================================================== *)
(** ** Operations that throw *)
(* ===================================================================== *)

(** C9.  Whatever error a mutating operation throws, the store at the
    moment of the throw is the store before the call followed by objects
    no caller can reach; in particular the receiver is exactly the object
    it was: same bits, same width, same flag. *)
Theorem failed_operation_leaves_receiver (h h' : heap) (this : ref)
  (o : binary) (operand : jsval) (e : error) :
  h !! this = Some o ->
  Method.and this operand h = (inl e, h') \/
  Method.or this operand h = (inl e, h') \/
  Method.xor this operand h = (inl e, h') \/
  Method.not this h = (inl e, h') \/
  Method.leftShift this operand h = (inl e, h') \/
  Method.rightShift this operand h = (inl e, h') \/
  Method.add this operand h = (inl e, h') \/
  Method.subtract this operand h = (inl e, h') ->
  (exists garbage, h' = h ++ garbage) /\ h' !! this = Some o.
Proof.
  intros Ht H.
  assert (G : exists garbage, h' = h ++ garbage).
  { destruct H as [H|[H|[H|[H|[H|[H|[H|H]]]]]]];
      try exact (operation_throws _ _ _ _ _ _ H).
    unfold Method.not in H. apply not_throws in H.
    subst h'. exists []. now rewrite app_nil_r. }
  split; [exact G|].
  destruct G as [g ->]. now apply lookup_old.
Qed.

(** An operand that [convert] rejects makes every binary operation
    throw. *)
Lemma invalid_operand_throws (op : Z -> Z -> Z) (h : heap) (this : ref)
  (o : binary) (operand : jsval) (e : error) :
  h !! this = Some o ->
  in_store h operand ->
  fst (convert operand h) = inl e ->
  exists e' h', Static.operation op (VBinary this) operand h = (inl e', h').
Proof.
  intros Ht Hin Hc. unfold Static.operation.
  unfold bind at 1. unfold load at 1. rewrite Ht. unfold bind at 1.
  destruct (constructor_error (length o) operand (VBoolean (useSigned o))
              h e Hin Hc) as (e' & g & ->).
  eexists; eexists; reflexivity.
Qed.

Lemma failed_operation_leaves_receiver_witness :
  let o := mkBinary 8 255 127 127 false
             [true; true; false; true; true; false; true; false] in
  Method.add 0%nat (VString "") [o] = (inl ConvertEmptyString, [o; blank 8 false])
  /\ (exists garbage, [o; blank 8 false] = [o] ++ garbage)
  /\ [o; blank 8 false] !! 0%nat = Some o.
Proof.
  intros o.
  assert (E : Method.add 0%nat (VString "") [o]
              = (inl ConvertEmptyString, [o; blank 8 false]))
    by reflexivity.
  split; [exact E|].
  apply (failed_operation_leaves_receiver [o] [o; blank 8 false] 0%nat o
           (VString "") ConvertEmptyString eq_refl).
  do 6 right. left. exact E.
Defined.

(* ===================================================================== *)
(** ** Construction without a seed *)
(* ===================================================================== *)

Lemma unsigned_loop_zeros (k w : nat) (msk number : Z) :
  unsigned_loop k msk number (replicate w false) = number.
Proof.
  revert msk number. induction k as [|k IH]; intros msk number; [reflexivity|].
  cbn [unsigned_loop]. rewrite IH. unfold bit_at.
  destruct (replicate w false !! k) as [b|] eqn:E; [|lia].
  apply lookup_replicate_1 in E as [-> _]. lia.
Qed.

Lemma reform_bits_zero (w : nat) (f : bool) :
  reform_bits (blank w f) 0 = replicate w false.
Proof.
  assert (Z0 : forall m, Int32.truthy (Int32.and 0 m) = false)
    by reflexivity.
  assert (Z1 : forall m d, Int32.truthy (Int32.and (Int32.and 0 m) d) = false)
    by reflexivity.
  apply list_eq. intros i. unfold reform_bits.
  change (0 <? 0) with false.
  destruct f; cbn [useSigned length bits decimalMask blank negb];
    rewrite reform_loop_lookup by (rewrite length_replicate; lia);
    (destruct (decide (i < w)%nat);
     [rewrite ?Z0, ?Z1; now rewrite lookup_replicate_2 by lia
     |reflexivity]).
Qed.

(** C10 as stated fails: with no seed the constructor throws. *)
Lemma constructor_without_seed_throws :
  run (constructor 8 VUndefined VUndefined) = inl GivenValueUndefined
  /\ run (constructor 8 VUndefined (VBoolean false)) = inl GivenValueUndefined.
Proof. split; reflexivity. Qed.

(** C10, as the code has it.  A constructor call whose seed argument is
    absent, hence [undefined], throws "given value can't be undefined",
    whatever the width and the flag, and returns no vector.  The all-zero
    vector, whose unsigned effective value is 0, is what the seed 0
    gives. *)
Theorem constructor_seed_absent_or_zero :
  (forall (size : nat) (flag : jsval) (h : heap),
      constructor size VUndefined flag h
      = (inl GivenValueUndefined, h ++ [fresh_object]))
  /\ (forall (size : nat) (flag : jsval) (h : heap),
         exists o,
           constructor size (VNumber 0) flag h
           = (inr (List.length h), h ++ [o]) /\
           vector size o /\
           bits o = replicate size false /\ unsigned o = 0).
Proof.
  split.
  - intros size flag h. now rewrite constructor_run.
  - intros size flag h.
    exists (reform_object (blank size (flag_of fresh_object flag)) 0).
    split; [now apply constructor_ok|].
    split; [apply vector_reform, vector_blank|].
    unfold unsigned. cbn [reform_object set_bits bits length].
    rewrite reform_bits_zero.
    split; [reflexivity|]. apply unsigned_loop_zeros.
Qed.

(* ===================================================================== *)
(** ** Bits and numbers: the way back *)
(* ===================================================================== *)

Lemma bits_of_number_length (w : nat) (v : Z) :
  List.length (bits_of_number w v) = w.
Proof. unfold bits_of_number. now rewrite length_fmap, length_seq. Qed.

Lemma bits_of_number_lookup (w : nat) (v : Z) (i : nat) :
  (i < w)%nat ->
  bits_of_number w v !! i = Some (Z.testbit v (Z.of_nat (w - 1 - i))).
Proof.
  intros Hi. unfold bits_of_number.
  rewrite list_lookup_fmap, lookup_seq_lt by lia. reflexivity.
Qed.

Lemma bits_of_number_mod (w : nat) (v v' : Z) :
  v mod 2 ^ Z.of_nat w = v' mod 2 ^ Z.of_nat w ->
  bits_of_number w v = bits_of_number w v'.
Proof.
  intros E. unfold bits_of_number. apply list_fmap_ext.
  intros i x Hx. apply lookup_seq in Hx as [-> Hi].
  rewrite <- (Z.mod_pow2_bits_low v (Z.of_nat w)) by lia.
  rewrite <- (Z.mod_pow2_bits_low v' (Z.of_nat w)) by lia.
  now rewrite E.
Qed.

(** The unsigned branch of [reform] writes the low bits of the number, up
    to width 32. *)
Lemma reform_unsigned_bits (w : nat) (o : binary) (v : Z) :
  (w <= 32)%nat -> vector w o -> useSigned o = false ->
  reform_bits o v = bits_of_number w v.
Proof.
  intros Hw (H1 & _ & _ & _ & H5) Hu.
  apply list_eq. intros i.
  destruct (decide (i < w)%nat) as [Hi|Hi].
  - rewrite bits_of_number_lookup by lia.
    pose proof (reform_unsigned_bit o v i Hu ltac:(lia) ltac:(lia) ltac:(lia))
      as B.
    unfold bit_at in B. rewrite H1 in B.
    destruct (lookup_lt_is_Some_2 (reform_bits o v) i) as [b Hb].
    { rewrite reform_bits_length. lia. }
    rewrite Hb in B |- *. now subst b.
  - rewrite !lookup_ge_None_2;
      rewrite ?reform_bits_length, ?bits_of_number_length; try lia.
    reflexivity.
Qed.

Lemma prefix_value_testbit (k : nat) (l : list bool) (j : nat) :
  Z.testbit (prefix_value k l) (Z.of_nat j)
  = if decide (j < k)%nat then bit_at l (k - 1 - j) else false.
Proof.
  revert j. induction k as [|k IH]; intros j.
  - cbn. rewrite Z.bits_0. now destruct (decide (j < 0)%nat).
  - cbn [prefix_value].
    replace (if bit_at l k then 1 else 0) with (Z.b2z (bit_at l k))
      by (now destruct (bit_at l k)).
    destruct j as [|j].
    + cbn [Z.of_nat]. rewrite Z.testbit_0_r.
      destruct (decide (0 < S k)%nat); [|lia].
      f_equal. lia.
    + rewrite Nat2Z.inj_succ, Z.testbit_succ_r by lia.
      rewrite IH.
      destruct (decide (j < k)%nat), (decide (S j < S k)%nat);
        try lia; try reflexivity.
      f_equal. lia.
Qed.

(** The bits of a vector, read as a number and written back at the same
    width, are the bits again. *)
Lemma bits_of_prefix_value (l : list bool) :
  bits_of_number (List.length l) (prefix_value (List.length l) l) = l.
Proof.
  apply list_eq. intros i.
  destruct (decide (i < List.length l)%nat) as [Hi|Hi].
  - rewrite bits_of_number_lookup by lia.
    rewrite prefix_value_testbit.
    destruct (decide (List.length l - 1 - i < List.length l)%nat); [|lia].
    replace (List.length l - 1 - (List.length l - 1 - i))%nat with i by lia.
    unfold bit_at.
    destruct (lookup_lt_is_Some_2 l i Hi) as [b Hb]. now rewrite Hb.
  - rewrite !lookup_ge_None_2; rewrite ?bits_of_number_length; try lia.
    reflexivity.
Qed.

(** At another width the bits stay aligned at the least significant end:
    the excess is cut, the missing bits are zero, both on the most
    significant side. *)
Lemma bits_of_prefix_value_aligned (w : nat) (l : list bool) :
  bits_of_number w (prefix_value (List.length l) l)
  = replicate (w - List.length l) false ++ drop (List.length l - w) l.
Proof.
  set (n := List.length l).
  apply list_eq. intros i.
  destruct (decide (i < w)%nat) as [Hi|Hi].
  - rewrite bits_of_number_lookup by lia.
    rewrite prefix_value_testbit.
    destruct (decide (i < w - n)%nat) as [Hpad|Hpad].
    + rewrite lookup_app_l by (rewrite length_replicate; lia).
      rewrite lookup_replicate_2 by lia.
      destruct (decide (w - 1 - i < n)%nat); [lia | reflexivity].
    + rewrite lookup_app_r by (rewrite length_replicate; lia).
      rewrite length_replicate, lookup_drop.
      destruct (decide (w - 1 - i < n)%nat); [|lia].
      replace (n - 1 - (w - 1 - i))%nat with (n - w + (i - (w - n)))%nat
        by lia.
      unfold bit_at.
      destruct (lookup_lt_is_Some_2 l (n - w + (i - (w - n)))%nat
                  ltac:(fold n; lia)) as [b Hb].
      now rewrite Hb.
  - rewrite !lookup_ge_None_2;
      rewrite ?bits_of_number_length, ?length_app, ?length_replicate,
        ?length_drop; fold n; try lia.
    reflexivity.
Qed.

Lemma vector_eta (w : nat) (o : binary) (f : bool) (l : list bool) :
  vector w o -> useSigned o = f -> bits o = l ->
  o = mkBinary w (mask_of_size w) (Int32.sar (mask_of_size w) 1)
        (Int32.and (mask_of_size w) (Int32.sar (mask_of_size w) 1)) f l.
Proof.
  intros (H1 & H2 & H3 & H4 & _) Hf Hl. destruct o; cbn in *. congruence.
Qed.

(** Reforming an unsigned vector with its own unsigned value changes
    nothing. *)
Lemma reform_unsigned_self (w : nat) (o : binary) (v : Z) :
  (w <= 31)%nat -> vector w o -> useSigned o = false ->
  v mod 2 ^ Z.of_nat w = unsigned o ->
  reform_object o v = o.
Proof.
  intros Hw Hv Hu E.
  pose proof Hv as (H1 & H2 & H3 & H4 & H5).
  rewrite (vector_eta w o false (bits o) Hv Hu eq_refl) at 2.
  rewrite (vector_eta w (reform_object o v) false (reform_bits o v)
             (vector_reform w o v Hv) Hu eq_refl).
  f_equal.
  rewrite (reform_unsigned_bits w o v ltac:(lia) Hv Hu).
  rewrite unsigned_prefix_value in E by lia. rewrite H1 in E.
  pose proof (bits_of_prefix_value (bits o)) as R. rewrite H5 in R.
  etransitivity; [|exact R]. apply bits_of_number_mod.
  rewrite E. symmetry. apply Z.mod_small. apply prefix_value_range.
Qed.

(* ===================================================================== *)
(** ** The conversion methods *)
(* ===================================================================== *)

(** The conversion methods share one body: convert, then reform the
    receiver in place. *)
Lemma from_ok (x : ref) (arg : jsval) (h : heap) (o : binary) (v : Z) :
  h !! x = Some o ->
  fst (convert arg h) = inr v ->
  (do v <- convert arg; do _ <- reform x v; ret x) h
  = (inr x, <[x := reform_object o v]> h).
Proof. exact (fromArray_ok x arg h o v). Qed.

Lemma from_throws (x : ref) (arg : jsval) (h h' : heap) (e : error) :
  (do v <- convert arg; do _ <- reform x v; ret x) h = (inl e, h') ->
  h' = h /\ (fst (convert arg h) = inl e \/
             (e = DanglingReference /\ h !! x = None)).
Proof.
  pose proof (convert_heap arg h) as Hh.
  unfold bind at 1.
  destruct (convert arg h) as [[e1|v] h1]; cbn in Hh; subst h1.
  - intros [= <- <-]. auto.
  - unfold reform. run_monad.
    destruct (h !! x); [intros [=] | intros [= <- <-]; auto].
Qed.

(** X1.  Assigning any integer to an unsigned vector of width at most 31,
    by [fromNumber] or by the constructor, stores the low bits of the
    number; the value read back is the number modulo [2^w], so negative
    and too large numbers wrap around. *)
Theorem number_wraps_into_unsigned (w : nat) (h : heap) (x : ref)
  (o : binary) (n : Z) :
  (w <= 31)%nat ->
  h !! x = Some o -> vector w o -> useSigned o = false ->
  (exists o',
      Method.fromNumber x n h = (inr x, <[x := o']> h) /\
      vector w o' /\ useSigned o' = false /\
      bits o' = bits_of_number w n /\
      valueOf o' = n mod 2 ^ Z.of_nat w) /\
  (exists c,
      constructor w (VNumber n) (VBoolean false) h
      = (inr (List.length h), h ++ [c]) /\
      vector w c /\ useSigned c = false /\
      bits c = bits_of_number w n /\
      valueOf c = n mod 2 ^ Z.of_nat w).
Proof.
  intros Hw Hx Hv Hu. pose proof Hv as (H1 & _ & _ & _ & H5). split.
  - exists (reform_object o n).
    split; [exact (from_ok x (VNumber n) h o n Hx eq_refl)|].
    split; [now apply vector_reform|].
    split; [exact Hu|].
    split; [exact (reform_unsigned_bits w o n ltac:(lia) Hv Hu)|].
    unfold valueOf. cbn [reform_object set_bits useSigned]. rewrite Hu.
    rewrite reform_unsigned_value by (auto; lia). now rewrite H1.
  - exists (reform_object (blank w false) n).
    split; [now apply constructor_ok|].
    split; [apply vector_reform, vector_blank|].
    split; [reflexivity|].
    split; [exact (reform_unsigned_bits w (blank w false) n ltac:(lia)
                     (vector_blank w false) eq_refl)|].
    unfold valueOf. cbn [reform_object set_bits useSigned blank].
    rewrite reform_unsigned_value;
      cbn; rewrite ?length_replicate; auto; lia.
Qed.

Lemma number_wraps_into_unsigned_witness :
  let o := mkBinary 8 255 127 127 false (replicate 8 false) in
  exists o',
    Method.fromNumber 0%nat (-1) [o] = (inr 0%nat, <[0%nat := o']> [o]) /\
    vector 8 o' /\ useSigned o' = false /\
    bits o' = bits_of_number 8 (-1) /\
    valueOf o' = (-1) mod 2 ^ Z.of_nat 8.
Proof.
  intros o.
  assert (Hw : (8 <= 31)%nat) by lia.
  assert (Hv : vector 8 o) by (repeat split; reflexivity).
  exact (proj1 (number_wraps_into_unsigned 8 [o] 0%nat o (-1)
                  Hw eq_refl Hv eq_refl)).
Defined.

(** X2.  A conversion method ([fromString], [fromArray], [fromNumber],
    [fromBoolean], [fromBinary]) that throws has written nothing: the
    store is exactly the one before the call. *)
Theorem failed_conversion_writes_nothing (h h' : heap) (x : ref)
  (e : error) (s : string) (array : jsval) (n : Z) (f : bool) (y : ref) :
  Method.fromString x s h = (inl e, h') \/
  Method.fromArray x array h = (inl e, h') \/
  Method.fromNumber x n h = (inl e, h') \/
  Method.fromBoolean x f h = (inl e, h') \/
  Method.fromBinary x y h = (inl e, h') ->
  h' = h.
Proof.
  intros [H|[H|[H|[H|H]]]]; exact (proj1 (from_throws _ _ _ _ _ H)).
Qed.

(** Which strings [fromString] rejects, and that it accepts the rest. *)
Lemma fromString_cases (h : heap) (x : ref) (o : binary) (s : string) :
  h !! x = Some o ->
  Method.fromString x s h
  = if String.eqb s EmptyString then (inl ConvertEmptyString, h)
    else match StringToNumber s with
         | None => (inl ConvertNonNumericString, h)
         | Some n => (inr x, <[x := reform_object o n]> h)
         end.
Proof.
  intros Hx. unfold Method.fromString.
  destruct (String.eqb s EmptyString) eqn:Es.
  - unfold bind at 1. cbn [convert]. rewrite Es. reflexivity.
  - destruct (StringToNumber s) as [n|] eqn:En.
    + apply from_ok; [exact Hx|]. cbn [convert]. now rewrite Es, En.
    + unfold bind at 1. cbn [convert]. rewrite Es, En. reflexivity.
Qed.

Lemma failed_conversion_writes_nothing_witness :
  let o := mkBinary 8 255 127 127 false (replicate 8 false) in
  Method.fromString 0%nat "0b102" [o] = (inl ConvertNonNumericString, [o])
  /\ [o] = [o].
Proof.
  intros o.
  assert (E : Method.fromString 0%nat "0b102" [o]
              = (inl ConvertNonNumericString, [o])) by reflexivity.
  split; [exact E|].
  exact (failed_conversion_writes_nothing [o] [o] 0%nat
           ConvertNonNumericString "0b102" VNull 0 false 0%nat
           (or_introl E)).
Defined.

(** X3.  [fromBoolean] on a vector of width 1 to 32 clears every bit but
    the last and stores the boolean there, as its doc comment says --
    except on a signed vector of width 1, whose only bit it always
    clears. *)
Theorem fromBoolean_sets_last_bit (w : nat) (h : heap) (x : ref)
  (o : binary) (b : bool) :
  (1 <= w <= 32)%nat ->
  h !! x = Some o -> vector w o ->
  exists o',
    Method.fromBoolean x b h = (inr x, <[x := o']> h) /\
    vector w o' /\ useSigned o' = useSigned o /\
    bits o'
    = replicate (w - 1) false ++ [b && (negb (useSigned o) || (2 <=? w)%nat)].
Proof.
  intros Hw Hx Hv.
  exists (reform_object o (if b then 1 else 0)).
  split; [exact (from_ok x (VBoolean b) h o _ Hx eq_refl)|].
  split; [now apply vector_reform|].
  split; [reflexivity|].
  exact (reform_bits_bit w o b Hw Hv).
Qed.

Lemma fromBoolean_sets_last_bit_witness :
  let o := mkBinary 1 1 0 0 true [false] in
  exists o',
    Method.fromBoolean 0%nat true [o] = (inr 0%nat, <[0%nat := o']> [o]) /\
    vector 1 o' /\ useSigned o' = useSigned o /\
    bits o'
    = replicate (1 - 1) false
        ++ [true && (negb (useSigned o) || (2 <=? 1)%nat)].
Proof.
  intros o.
  assert (Hw : (1 <= 1 <= 32)%nat) by lia.
  assert (Hv : vector 1 o) by (repeat split; reflexivity).
  exact (fromBoolean_sets_last_bit 1 [o] 0%nat o true Hw eq_refl Hv).
Defined.

(** X4.  [fromBinary] between unsigned vectors of widths up to 31 copies
    the bits aligned at the least significant end: a longer source is cut
    and a shorter one is padded with zeros, both on the most significant
    side; at equal widths the receiver becomes an exact image of the
    source.  The source is not touched. *)
Theorem fromBinary_truncates_and_pads (wx wy : nat) (h : heap) (x y : ref)
  (ox oy : binary) :
  (wx <= 31)%nat -> (wy <= 31)%nat ->
  h !! x = Some ox -> vector wx ox -> useSigned ox = false ->
  h !! y = Some oy -> vector wy oy -> useSigned oy = false ->
  exists ox',
    Method.fromBinary x y h = (inr x, <[x := ox']> h) /\
    vector wx ox' /\ useSigned ox' = false /\
    bits ox' = replicate (wx - wy) false ++ drop (wy - wx) (bits oy) /\
    (wx = wy -> ox' = oy) /\
    (x <> y -> <[x := ox']> h !! y = Some oy).
Proof.
  intros Hwx Hwy Hx Hvx Hux Hy Hvy Huy.
  pose proof Hvy as (Y1 & _ & _ & _ & Y5).
  assert (Hc : fst (convert (VBinary y) h) = inr (unsigned oy)).
  { cbn. run_monad. rewrite Hy. cbn. unfold valueOf. now rewrite Huy. }
  assert (Hb : reform_bits ox (unsigned oy)
               = replicate (wx - wy) false ++ drop (wy - wx) (bits oy)).
  { rewrite (reform_unsigned_bits wx ox _ ltac:(lia) Hvx Hux).
    rewrite unsigned_prefix_value by lia. rewrite Y1, <- Y5.
    apply bits_of_prefix_value_aligned. }
  exists (reform_object ox (unsigned oy)).
  split; [exact (from_ok x (VBinary y) h ox _ Hx Hc)|].
  split; [now apply vector_reform|].
  split; [exact Hux|].
  split; [exact Hb|].
  split.
  - intros ->.
    etransitivity;
      [exact (vector_eta wy (reform_object ox (unsigned oy)) false
                (reform_bits ox (unsigned oy))
                (vector_reform wy ox _ Hvx) Hux eq_refl)|].
    etransitivity;
      [|symmetry; exact (vector_eta wy oy false (bits oy) Hvy Huy eq_refl)].
    f_equal. rewrite Hb, Nat.sub_diag. cbn. now rewrite drop_0.
  - intros Hne. now rewrite list_lookup_insert_ne.
Qed.

Lemma fromBinary_truncates_and_pads_witness :
  let ox := mkBinary 4 15 7 7 false [true; true; true; true] in
  let oy := mkBinary 8 255 127 127 false
              [true; true; false; true; true; false; true; false] in
  exists ox',
    Method.fromBinary 0%nat 1%nat [ox; oy]
    = (inr 0%nat, <[0%nat := ox']> [ox; oy]) /\
    vector 4 ox' /\ useSigned ox' = false /\
    bits ox' = replicate (4 - 8) false ++ drop (8 - 4) (bits oy) /\
    (4%nat = 8%nat -> ox' = oy) /\
    (0%nat <> 1%nat -> <[0%nat := ox']> [ox; oy] !! 1%nat = Some oy).
Proof.
  intros ox oy.
  assert (Hwx : (4 <= 31)%nat) by lia.
  assert (Hwy : (8 <= 31)%nat) by lia.
  assert (Hvx : vector 4 ox) by (repeat split; reflexivity).
  assert (Hvy : vector 8 oy) by (repeat split; reflexivity).
  exact (fromBinary_truncates_and_pads 4 8 [ox; oy] 0%nat 1%nat ox oy
           Hwx Hwy eq_refl Hvx eq_refl eq_refl Hvy eq_refl).
Defined.

(** X5.  The [copy] of an unsigned vector of width at most 31 is exact: a
    new reference, holding an object equal to the original in width,
    masks, flag and bits, while the original stays where and as it was. *)
Theorem copy_of_unsigned_is_exact (w : nat) (h : heap) (x : ref) (o : binary) :
  (w <= 31)%nat ->
  h !! x = Some o -> vector w o -> useSigned o = false ->
  Method.copy x h = (inr (List.length h), h ++ [o]) /\
  (x < List.length h)%nat /\
  (h ++ [o]) !! x = Some o.
Proof.
  intros Hw Hx Hv Hu.
  pose proof Hv as (H1 & _ & _ & _ & H5).
  rewrite (copy_allocates h x o Hx).
  assert (E : reform_object (blank (length o) false) (valueOf o) = o).
  { rewrite H1. unfold valueOf. rewrite Hu.
    etransitivity;
      [exact (vector_eta w (reform_object (blank w false) (unsigned o)) false
                (reform_bits (blank w false) (unsigned o))
                (vector_reform w _ _ (vector_blank w false)) eq_refl eq_refl)|].
    etransitivity;
      [|symmetry; exact (vector_eta w o false (bits o) Hv Hu eq_refl)].
    f_equal.
    rewrite (reform_unsigned_bits w (blank w false) _ ltac:(lia)
               (vector_blank w false) eq_refl).
    rewrite unsigned_prefix_value by lia. rewrite H1, <- H5.
    apply bits_of_prefix_value. }
  rewrite E. split; [reflexivity|].
  split; [now apply lookup_lt_Some in Hx | now apply lookup_old].
Qed.

Lemma copy_of_unsigned_is_exact_witness :
  let o := mkBinary 8 255 127 127 false
             [true; true; false; true; true; false; true; false] in
  Method.copy 0%nat [o] = (inr (List.length [o]), [o] ++ [o]) /\
  (0 < List.length [o])%nat /\
  ([o] ++ [o]) !! 0%nat = Some o.
Proof.
  intros o.
  assert (Hw : (8 <= 31)%nat) by lia.
  assert (Hv : vector 8 o) by (repeat split; reflexivity).
  exact (copy_of_unsigned_is_exact 8 [o] 0%nat o Hw eq_refl Hv eq_refl).
Defined.

(* ===================================================================== *)
(** ** Bitwise operations on unsigned vectors *)
(* ===================================================================== *)

Lemma not_ok (t : ref) (h : heap) (tobj : binary) :
  h !! t = Some tobj ->
  Static.not (VBinary t) h
  = (inr t, <[t := reform_object tobj (Int32.not (valueOf tobj))]> h).
Proof.
  intros Ht. unfold Static.not. unfold bind at 1. unfold load at 1.
  rewrite Ht. unfold reform. run_monad. now rewrite Ht.
Qed.

Lemma pow2_le_31 (w : nat) : (w <= 31)%nat -> 0 < 2 ^ Z.of_nat w <= 2 ^ 31.
Proof.
  intros H. split; [apply Z.pow_pos_nonneg; lia|].
  apply Z.pow_le_mono_r; lia.
Qed.

Lemma high_bits_zero (w : nat) (a n : Z) :
  0 <= a < 2 ^ Z.of_nat w -> Z.of_nat w <= n -> Z.testbit a n = false.
Proof.
  intros Ha Hn. rewrite <- (Z.mod_small a (2 ^ Z.of_nat w)) by lia.
  apply Z.mod_pow2_bits_high. lia.
Qed.

(** A bitwise operator that maps two clear bits to a clear bit keeps two
    numbers below [2^w] below [2^w]. *)
Lemma bitwise_small (f : bool -> bool -> bool) (op : Z -> Z -> Z) (w : nat)
  (a b : Z) :
  (forall x y n, 0 <= n ->
                 Z.testbit (op x y) n = f (Z.testbit x n) (Z.testbit y n)) ->
  f false false = false ->
  0 <= a < 2 ^ Z.of_nat w -> 0 <= b < 2 ^ Z.of_nat w ->
  op a b mod 2 ^ Z.of_nat w = op a b.
Proof.
  intros Hspec Hf Ha Hb. apply Z.bits_inj'. intros n Hn.
  destruct (Z.lt_ge_cases n (Z.of_nat w)) as [Hlt|Hge].
  - now rewrite Z.mod_pow2_bits_low by lia.
  - rewrite Z.mod_pow2_bits_high by lia.
    rewrite Hspec by lia.
    now rewrite (high_bits_zero w a n Ha Hge), (high_bits_zero w b n Hb Hge).
Qed.

(** X6.  On an unsigned receiver of width at most 31, [and], [or] and
    [xor] with an operand that converts to the number [n] leave the
    receiver holding the bitwise and, or, xor of its value and of
    [n mod 2^w]; nothing is lost to truncation. *)
Theorem bitwise_on_unsigned (w : nat) (h : heap) (this : ref) (o : binary)
  (operand : jsval) (n : Z) :
  (w <= 31)%nat ->
  h !! this = Some o -> vector w o -> useSigned o = false ->
  in_store h operand -> fst (convert operand h) = inr n ->
  (exists h' o', Method.and this operand h = (inr this, h') /\
      h' !! this = Some o' /\ vector w o' /\
      valueOf o' = Z.land (valueOf o) (n mod 2 ^ Z.of_nat w)) /\
  (exists h' o', Method.or this operand h = (inr this, h') /\
      h' !! this = Some o' /\ vector w o' /\
      valueOf o' = Z.lor (valueOf o) (n mod 2 ^ Z.of_nat w)) /\
  (exists h' o', Method.xor this operand h = (inr this, h') /\
      h' !! this = Some o' /\ vector w o' /\
      valueOf o' = Z.lxor (valueOf o) (n mod 2 ^ Z.of_nat w)).
Proof.
  intros Hw Ht Hv Hu Hin Hc.
  pose proof (vector_unsigned_range w o Hw Hv) as Ra.
  pose proof (pow2_le_31 w Hw) as P.
  pose proof (Z.mod_pos_bound n (2 ^ Z.of_nat w) ltac:(lia)) as Rn.
  assert (Va : valueOf o = unsigned o) by (unfold valueOf; now rewrite Hu).
  rewrite Va.
  split; [|split].
  - destruct (operation_unsigned Int32.and w h this o operand n
                Hw Ht Hv Hu Hin Hc) as (h' & o' & E & Hl & Hv' & Hu' & Hval).
    exists h', o'. unfold Method.and, Static.and. rewrite E.
    repeat (split; [assumption || reflexivity|]).
    unfold valueOf. rewrite Hu', Hval. unfold Int32.and.
    rewrite !ToInt32_id by lia.
    apply (bitwise_small andb); auto.
    intros x y k _. apply Z.land_spec.
  - destruct (operation_unsigned Int32.or w h this o operand n
                Hw Ht Hv Hu Hin Hc) as (h' & o' & E & Hl & Hv' & Hu' & Hval).
    exists h', o'. unfold Method.or, Static.or. rewrite E.
    repeat (split; [assumption || reflexivity|]).
    unfold valueOf. rewrite Hu', Hval. unfold Int32.or.
    rewrite !ToInt32_id by lia.
    apply (bitwise_small orb); auto.
    intros x y k _. apply Z.lor_spec.
  - destruct (operation_unsigned Int32.xor w h this o operand n
                Hw Ht Hv Hu Hin Hc) as (h' & o' & E & Hl & Hv' & Hu' & Hval).
    exists h', o'. unfold Method.xor, Static.xor. rewrite E.
    repeat (split; [assumption || reflexivity|]).
    unfold valueOf. rewrite Hu', Hval. unfold Int32.xor.
    rewrite !ToInt32_id by lia.
    apply (bitwise_small xorb); auto.
    intros x y k _. apply Z.lxor_spec.
Qed.

Lemma bitwise_on_unsigned_witness :
  let a := mkBinary 8 255 127 127 false
             [true; false; true; false; true; false; false; true] in
  exists h' o', Method.and 0%nat (VNumber 218) [a] = (inr 0%nat, h') /\
      h' !! 0%nat = Some o' /\ vector 8 o' /\
      valueOf o' = Z.land (valueOf a) (218 mod 2 ^ Z.of_nat 8).
Proof.
  intros a.
  assert (Hw : (8 <= 31)%nat) by lia.
  assert (Hv : vector 8 a) by (repeat split; reflexivity).
  exact (proj1 (bitwise_on_unsigned 8 [a] 0%nat a (VNumber 218) 218
                  Hw eq_refl Hv eq_refl I eq_refl)).
Defined.

(** Reforming an unsigned vector with a number congruent to the value
    of another unsigned vector of the same width makes it that vector. *)
Lemma reform_unsigned_back (w : nat) (o o1 : binary) (v : Z) :
  (w <= 31)%nat ->
  vector w o -> useSigned o = false ->
  vector w o1 -> useSigned o1 = false ->
  v mod 2 ^ Z.of_nat w = unsigned o ->
  reform_object o1 v = o.
Proof.
  intros Hw Hv Hu Hv1 Hu1 E.
  rewrite <- (reform_unsigned_self w o v Hw Hv Hu E).
  etransitivity;
    [exact (vector_eta w (reform_object o1 v) false (reform_bits o1 v)
              (vector_reform w o1 v Hv1) Hu1 eq_refl)|].
  etransitivity;
    [|symmetry;
      exact (vector_eta w (reform_object o v) false (reform_bits o v)
               (vector_reform w o v Hv) Hu eq_refl)].
  f_equal.
  now rewrite !(reform_unsigned_bits w) by (auto; lia).
Qed.

Lemma unsigned_valueOf (o : binary) :
  useSigned o = false -> valueOf o = unsigned o.
Proof. intros Hu. unfold valueOf. now rewrite Hu. Qed.

(** X7.  On an unsigned receiver of width at most 31, [not] leaves the
    receiver holding [2^w - 1 - value], the complement within the width,
    and [not] applied twice gives back the receiver exactly as it was. *)
Theorem not_complements_within_width (w : nat) (h : heap) (this : ref)
  (o : binary) :
  (w <= 31)%nat ->
  h !! this = Some o -> vector w o -> useSigned o = false ->
  (exists o',
      Method.not this h = (inr this, <[this := o']> h) /\
      vector w o' /\ useSigned o' = false /\
      valueOf o' = 2 ^ Z.of_nat w - 1 - valueOf o) /\
  (do _ <- Method.not this; Method.not this) h
  = (inr this, <[this := o]> h).
Proof.
  intros Hw Ht Hv Hu.
  pose proof (vector_unsigned_range w o Hw Hv) as Ra.
  pose proof (pow2_le_31 w Hw) as P.
  pose proof Hv as (H1 & _ & _ & _ & H5).
  set (o1 := reform_object o (Int32.not (valueOf o))).
  assert (Hv1 : vector w o1) by now apply vector_reform.
  assert (Hn : Int32.not (valueOf o) = - unsigned o - 1).
  { rewrite (unsigned_valueOf o Hu). unfold Int32.not.
    rewrite ToInt32_id by lia. unfold Z.lnot. lia. }
  assert (Hval : unsigned o1 = 2 ^ Z.of_nat w - 1 - unsigned o).
  { subst o1. rewrite reform_unsigned_value by (auto; lia).
    rewrite H1, Hn.
    replace (- unsigned o - 1)
      with (2 ^ Z.of_nat w - 1 - unsigned o + (-1) * 2 ^ Z.of_nat w) by lia.
    rewrite Z.mod_add by lia. apply Z.mod_small. lia. }
  assert (E1 : Method.not this h = (inr this, <[this := o1]> h))
    by exact (not_ok this h o Ht).
  split.
  - exists o1. split; [exact E1|]. split; [exact Hv1|].
    split; [exact Hu|].
    now rewrite (unsigned_valueOf o1 Hu), (unsigned_valueOf o Hu).
  - unfold bind. rewrite E1.
    assert (Hl : <[this := o1]> h !! this = Some o1)
      by (apply list_lookup_insert_eq; now apply lookup_lt_Some in Ht).
    unfold Method.not. rewrite (not_ok this _ o1 Hl).
    rewrite list_insert_insert_eq. do 2 f_equal.
    apply (reform_unsigned_back w); auto.
    rewrite (unsigned_valueOf o1 Hu). unfold Int32.not.
    rewrite ToInt32_id by lia. unfold Z.lnot. rewrite Hval.
    replace (Z.pred (- (2 ^ Z.of_nat w - 1 - unsigned o)))
      with (unsigned o + (-1) * 2 ^ Z.of_nat w) by lia.
    rewrite Z.mod_add by lia. apply Z.mod_small. lia.
Qed.

Lemma not_complements_within_width_witness :
  let o := mkBinary 8 255 127 127 false
             [true; true; false; true; true; false; true; false] in
  (exists o',
      Method.not 0%nat [o] = (inr 0%nat, <[0%nat := o']> [o]) /\
      vector 8 o' /\ useSigned o' = false /\
      valueOf o' = 2 ^ Z.of_nat 8 - 1 - valueOf o) /\
  (do _ <- Method.not 0%nat; Method.not 0%nat) [o]
  = (inr 0%nat, <[0%nat := o]> [o]).
Proof.
  intros o.
  assert (Hw : (8 <= 31)%nat) by lia.
  assert (Hv : vector 8 o) by (repeat split; reflexivity).
  exact (not_complements_within_width 8 [o] 0%nat o Hw eq_refl Hv eq_refl).
Defined.

(** X8.  On an unsigned receiver of width at most 31, a shift by an
    operand that converts to [n] uses the count [(n mod 2^w) mod 32]:
    [leftShift] leaves [value * 2^count mod 2^w] and [rightShift] leaves
    [value / 2^count].  So a count of 32 shifts by nothing, whatever the
    width. *)
Theorem shifts_on_unsigned (w : nat) (h : heap) (this : ref) (o : binary)
  (operand : jsval) (n : Z) :
  (w <= 31)%nat ->
  h !! this = Some o -> vector w o -> useSigned o = false ->
  in_store h operand -> fst (convert operand h) = inr n ->
  let count := (n mod 2 ^ Z.of_nat w) mod 32 in
  (exists h' o', Method.leftShift this operand h = (inr this, h') /\
      h' !! this = Some o' /\ vector w o' /\
      valueOf o' = (valueOf o * 2 ^ count) mod 2 ^ Z.of_nat w) /\
  (exists h' o', Method.rightShift this operand h = (inr this, h') /\
      h' !! this = Some o' /\ vector w o' /\
      valueOf o' = valueOf o / 2 ^ count).
Proof.
  intros Hw Ht Hv Hu Hin Hc count.
  pose proof (vector_unsigned_range w o Hw Hv) as Ra.
  pose proof (pow2_le_31 w Hw) as P.
  pose proof (Z.mod_pos_bound n (2 ^ Z.of_nat w) ltac:(lia)) as Rn.
  pose proof (Z.mod_pos_bound (n mod 2 ^ Z.of_nat w) 32 ltac:(lia)) as Rc.
  fold count in Rc.
  assert (Hcount : Int32.ToUint32 (n mod 2 ^ Z.of_nat w) mod 32 = count).
  { unfold Int32.ToUint32. rewrite (Z.mod_small _ (2 ^ 32)) by lia.
    reflexivity. }
  rewrite (unsigned_valueOf o Hu).
  split.
  - destruct (operation_unsigned Int32.shl w h this o operand n
                Hw Ht Hv Hu Hin Hc) as (h' & o' & E & Hl & Hv' & Hu' & Hval).
    exists h', o'. unfold Method.leftShift, Static.leftShift. rewrite E.
    repeat (split; [assumption || reflexivity|]).
    rewrite (unsigned_valueOf o' Hu'), Hval. unfold Int32.shl.
    rewrite Hcount, (ToInt32_id (unsigned o)) by lia.
    rewrite ToInt32_mod_pow2 by lia.
    now rewrite Z.shiftl_mul_pow2 by lia.
  - destruct (operation_unsigned Int32.sar w h this o operand n
                Hw Ht Hv Hu Hin Hc) as (h' & o' & E & Hl & Hv' & Hu' & Hval).
    exists h', o'. unfold Method.rightShift, Static.rightShift. rewrite E.
    repeat (split; [assumption || reflexivity|]).
    rewrite (unsigned_valueOf o' Hu'), Hval. unfold Int32.sar.
    rewrite Hcount, (ToInt32_id (unsigned o)) by lia.
    rewrite Z.shiftr_div_pow2 by lia.
    apply Z.mod_small.
    assert (Q : 0 < 2 ^ count) by (apply Z.pow_pos_nonneg; lia).
    split; [apply Z.div_pos; lia|].
    apply Z.le_lt_trans with (unsigned o); [|lia].
    apply Z.div_le_upper_bound; nia.
Qed.

Lemma shifts_on_unsigned_witness :
  let o := mkBinary 8 255 127 127 false
             [true; false; true; false; true; false; false; true] in
  let count := (32 mod 2 ^ Z.of_nat 8) mod 32 in
  count = 0 /\
  exists h' o', Method.leftShift 0%nat (VNumber 32) [o] = (inr 0%nat, h') /\
      h' !! 0%nat = Some o' /\ vector 8 o' /\
      valueOf o' = (valueOf o * 2 ^ count) mod 2 ^ Z.of_nat 8.
Proof.
  intros o count. split; [reflexivity|].
  assert (Hw : (8 <= 31)%nat) by lia.
  assert (Hv : vector 8 o) by (repeat split; reflexivity).
  exact (proj1 (shifts_on_unsigned 8 [o] 0%nat o (VNumber 32) 32
                  Hw eq_refl Hv eq_refl I eq_refl)).
Defined.

(* ===================================================================== *)
(** ** How operations compose, and what they leave alone *)
(* ===================================================================== *)

(** Two operations in a row on an unsigned receiver, with a number as
    operand: if the second native operator undoes the first modulo
    [2^w], the receiver ends as it started. *)
Lemma operation_undone (op1 op2 : Z -> Z -> Z) (w : nat) (h : heap)
  (this : ref) (o : binary) (n : Z) :
  (w <= 31)%nat ->
  h !! this = Some o -> vector w o -> useSigned o = false ->
  (forall a m r, 0 <= a < 2 ^ Z.of_nat w -> 0 <= m < 2 ^ Z.of_nat w ->
                 r = op1 a m mod 2 ^ Z.of_nat w ->
                 op2 r m mod 2 ^ Z.of_nat w = a) ->
  exists h',
    (do _ <- Static.operation op1 (VBinary this) (VNumber n);
     Static.operation op2 (VBinary this) (VNumber n)) h = (inr this, h') /\
    h' !! this = Some o /\
    (forall r, (r < List.length h)%nat -> h' !! r = h !! r).
Proof.
  intros Hw Ht Hv Hu Hinv.
  pose proof Hv as (H1 & _ & _ & _ & H5).
  pose proof (vector_unsigned_range w o Hw Hv) as Ra.
  pose proof (pow2_le_31 w Hw) as P.
  pose proof (Z.mod_pos_bound n (2 ^ Z.of_nat w) ltac:(lia)) as Rn.
  pose proof (lookup_lt_Some _ _ _ Ht) as Hlt.
  set (temp := reform_object (blank (length o) (useSigned o)) n).
  assert (Htemp : valueOf temp = n mod 2 ^ Z.of_nat w).
  { subst temp. rewrite Hu, H1. unfold valueOf.
    cbn [useSigned reform_object set_bits blank].
    rewrite reform_unsigned_value;
      cbn; rewrite ?length_replicate; auto; lia. }
  set (o1 := reform_object o (op1 (valueOf o) (valueOf temp))).
  assert (Hv1 : vector w o1) by now apply vector_reform.
  assert (Hval1 : valueOf o1
                  = op1 (unsigned o) (n mod 2 ^ Z.of_nat w) mod 2 ^ Z.of_nat w).
  { rewrite (unsigned_valueOf o1 Hu). subst o1.
    rewrite reform_unsigned_value by (auto; lia).
    now rewrite H1, Htemp, (unsigned_valueOf o Hu). }
  set (h1 := <[this := o1]> (h ++ [temp])).
  assert (E1 : Static.operation op1 (VBinary this) (VNumber n) h
               = (inr this, h1))
    by exact (operation_ok op1 this (VNumber n) h o n Ht I eq_refl).
  assert (Hl1 : h1 !! this = Some o1).
  { subst h1. apply list_lookup_insert_eq. rewrite length_app. lia. }
  assert (E2 : Static.operation op2 (VBinary this) (VNumber n) h1
               = (inr this,
                  <[this := reform_object o1
                              (op2 (valueOf o1) (valueOf temp))]>
                    (h1 ++ [temp])))
    by exact (operation_ok op2 this (VNumber n) h1 o1 n Hl1 I eq_refl).
  assert (Eo : reform_object o1 (op2 (valueOf o1) (valueOf temp)) = o).
  { apply (reform_unsigned_back w); auto.
    rewrite Htemp. apply (Hinv (unsigned o)); auto. }
  rewrite Eo in E2.
  eexists. split; [unfold bind; rewrite E1; exact E2|].
  assert (Hlen1 : List.length h1 = S (List.length h)).
  { subst h1. rewrite length_insert, length_app. cbn. lia. }
  split.
  - apply list_lookup_insert_eq. rewrite length_app. lia.
  - intros r Hr.
    destruct (decide (r = this)) as [->|Hne].
    + rewrite list_lookup_insert_eq by (rewrite length_app; lia).
      now rewrite Ht.
    + rewrite list_lookup_insert_ne by auto.
      rewrite lookup_app_l by lia. subst h1.
      rewrite list_lookup_insert_ne by auto.
      now rewrite lookup_app_l by lia.
Qed.

(** X9.  On an unsigned receiver of width at most 31, [subtract] undoes
    [add], [add] undoes [subtract] and [xor] undoes itself, for every
    integer operand, overflow or not: after the two calls the receiver
    and every other object of the store are exactly what they were. *)
Theorem add_subtract_xor_undo (w : nat) (h : heap) (this : ref)
  (o : binary) (n : Z) :
  (w <= 31)%nat ->
  h !! this = Some o -> vector w o -> useSigned o = false ->
  (exists h',
      (do _ <- Method.add this (VNumber n);
       Method.subtract this (VNumber n)) h = (inr this, h') /\
      h' !! this = Some o /\
      (forall r, (r < List.length h)%nat -> h' !! r = h !! r)) /\
  (exists h',
      (do _ <- Method.subtract this (VNumber n);
       Method.add this (VNumber n)) h = (inr this, h') /\
      h' !! this = Some o /\
      (forall r, (r < List.length h)%nat -> h' !! r = h !! r)) /\
  (exists h',
      (do _ <- Method.xor this (VNumber n);
       Method.xor this (VNumber n)) h = (inr this, h') /\
      h' !! this = Some o /\
      (forall r, (r < List.length h)%nat -> h' !! r = h !! r)).
Proof.
  intros Hw Ht Hv Hu.
  pose proof (pow2_le_31 w Hw) as P.
  split; [|split].
  - apply (operation_undone Z.add Z.sub w); auto.
    intros a m r Ha Hm ->.
    rewrite Zminus_mod_idemp_l.
    replace (a + m - m) with a by lia. apply Z.mod_small. lia.
  - apply (operation_undone Z.sub Z.add w); auto.
    intros a m r Ha Hm ->.
    rewrite Zplus_mod_idemp_l.
    replace (a - m + m) with a by lia. apply Z.mod_small. lia.
  - apply (operation_undone Int32.xor Int32.xor w); auto.
    intros a m r Ha Hm ->.
    unfold Int32.xor at 2. rewrite !(ToInt32_id a), !(ToInt32_id m) by lia.
    rewrite (bitwise_small xorb Z.lxor w a m); auto;
      [|intros x y k _; apply Z.lxor_spec].
    unfold Int32.xor.
    rewrite (ToInt32_id m) by lia.
    assert (R : 0 <= Z.lxor a m < 2 ^ Z.of_nat w).
    { rewrite <- (bitwise_small xorb Z.lxor w a m); auto;
        [|intros x y k _; apply Z.lxor_spec].
      apply Z.mod_pos_bound. lia. }
    rewrite (ToInt32_id (Z.lxor a m)) by lia.
    rewrite Z.lxor_assoc, Z.lxor_nilpotent, Z.lxor_0_r.
    apply Z.mod_small. lia.
Qed.

Lemma add_subtract_xor_undo_witness :
  let o := mkBinary 8 255 127 127 false (replicate 8 true) in
  exists h',
    (do _ <- Method.add 0%nat (VNumber 1);
     Method.subtract 0%nat (VNumber 1)) [o] = (inr 0%nat, h') /\
    h' !! 0%nat = Some o /\
    (forall r, (r < List.length [o])%nat -> h' !! r = [o] !! r).
Proof.
  intros o.
  assert (Hw : (8 <= 31)%nat) by lia.
  assert (Hv : vector 8 o) by (repeat split; reflexivity).
  exact (proj1 (add_subtract_xor_undo 8 [o] 0%nat o 1 Hw eq_refl Hv eq_refl)).
Defined.

Lemma constructor_success (size : nat) (argument flag : jsval) (h h1 : heap)
  (v : ref) :
  constructor size argument flag h = (inr v, h1) ->
  v = List.length h /\ exists c, h1 = h ++ [c].
Proof.
  rewrite constructor_run.
  destruct argument; cbn zeta; try discriminate;
    match goal with
    | |- context [fst (convert ?a ?s)] =>
        destruct (fst (convert a s)); [discriminate|]
    end;
    intros [= <- <-]; (split; [reflexivity | eexists; reflexivity]).
Qed.

(** X10.  A mutating operation that returns, returns its receiver (so
    calls chain), adds one temporary object to the store (none for [not])
    and rewrites the bits of the receiver only: the receiver keeps its
    width, masks and flag, its bit sequence keeps its length, and every
    other object, the operand included, is untouched. *)
Theorem operation_touches_receiver_only (op : Z -> Z -> Z) (h h' : heap)
  (this r : ref) (o : binary) (operand : jsval) :
  h !! this = Some o ->
  Static.operation op (VBinary this) operand h = (inr r, h') \/
  Static.not (VBinary this) h = (inr r, h') ->
  r = this /\
  (List.length h <= List.length h' <= S (List.length h))%nat /\
  (forall x, x <> this -> (x < List.length h)%nat -> h' !! x = h !! x) /\
  exists o',
    h' !! this = Some o' /\
    length o' = length o /\ mask o' = mask o /\
    decimalMask o' = decimalMask o /\ signedMask o' = signedMask o /\
    useSigned o' = useSigned o /\
    List.length (bits o') = List.length (bits o).
Proof.
  intros Ht [H|H].
  - unfold Static.operation in H.
    unfold bind at 1 in H. unfold load at 1 in H. rewrite Ht in H.
    unfold bind at 1 in H.
    destruct (constructor (length o) operand (VBoolean (useSigned o)) h)
      as [[e|v] h1] eqn:Ec; [discriminate|].
    destruct (constructor_success _ _ _ _ _ _ Ec) as (-> & c & ->).
    unfold reform in H. run_monad.
    rewrite (lookup_old h [c] this o Ht), lookup_fresh in H.
    rewrite (lookup_old h [c] this o Ht) in H.
    injection H as <- <-.
    pose proof (lookup_lt_Some _ _ _ Ht) as Hlt.
    split; [reflexivity|].
    split; [rewrite length_insert, length_app; cbn; lia|].
    split.
    + intros x Hne Hx. rewrite list_lookup_insert_ne by auto.
      now rewrite lookup_app_l by lia.
    + eexists. split;
        [apply list_lookup_insert_eq; rewrite length_app; lia|].
      cbn. rewrite reform_bits_length. auto 10.
  - rewrite (not_ok this h o Ht) in H. injection H as <- <-.
    pose proof (lookup_lt_Some _ _ _ Ht) as Hlt.
    split; [reflexivity|].
    split; [rewrite length_insert; lia|].
    split.
    + intros x Hne Hx. now rewrite list_lookup_insert_ne by auto.
    + eexists. split; [now apply list_lookup_insert_eq|].
      cbn. rewrite reform_bits_length. auto 10.
Qed.

Lemma operation_touches_receiver_only_witness :
  let a := mkBinary 8 255 127 127 true (replicate 8 true) in
  let b := mkBinary 4 15 7 7 false (replicate 4 true) in
  exists h',
    Static.operation Z.add (VBinary 0%nat) (VBinary 1%nat) [a; b]
    = (inr 0%nat, h') /\
    (forall x, x <> 0%nat -> (x < List.length [a; b])%nat ->
               h' !! x = [a; b] !! x).
Proof.
  intros a b. eexists.
  assert (E : Static.operation Z.add (VBinary 0%nat) (VBinary 1%nat) [a; b]
              = (inr 0%nat, _)) by (vm_compute; reflexivity).
  split; [exact E|].
  exact (proj1 (proj2 (proj2
           (operation_touches_receiver_only Z.add [a; b] _ 0%nat 0%nat a
              (VBinary 1%nat) eq_refl (or_introl E))))).
Defined.

(* ===================================================================== *)
(** ** Comparisons *)
(* ===================================================================== *)

Lemma comparison_ok (rel : Z -> Z -> bool) (t : ref) (operand : jsval)
  (h : heap) (tobj : binary) (v : Z) :
  h !! t = Some tobj ->
  in_store h operand ->
  fst (convert operand h) = inr v ->
  let temp := reform_object (blank (length tobj) (useSigned tobj)) v in
  Static.comparison rel (VBinary t) operand h
  = (inr (rel (valueOf tobj) (valueOf temp)), h ++ [temp]).
Proof.
  intros Ht Hin Hc temp. unfold Static.comparison.
  unfold bind at 1. unfold load at 1. rewrite Ht.
  unfold bind at 1.
  rewrite (constructor_ok _ _ _ _ v Hin Hc). cbn [flag_of]. fold temp.
  run_monad.
  now rewrite (lookup_old h [temp] t tobj Ht), lookup_fresh.
Qed.

Lemma comparison_extends (rel : Z -> Z -> bool) (target operand : jsval)
  (h : heap) :
  exists garbage, snd (Static.comparison rel target operand h) = h ++ garbage.
Proof.
  unfold Static.comparison.
  destruct target as [| |t| | | | |];
    try (exists []; cbn; now rewrite app_nil_r).
  unfold bind at 1. unfold load at 1.
  destruct (h !! t) as [tobj|] eqn:Ht;
    [|exists []; cbn; now rewrite app_nil_r].
  unfold bind at 1.
  destruct (constructor_extends (length tobj) operand
              (VBoolean (useSigned tobj)) h) as [c Hc].
  destruct (constructor (length tobj) operand (VBoolean (useSigned tobj)) h)
    as [[e|v] h1]; cbn [snd] in Hc; subst h1; [now exists [c]|].
  run_monad. rewrite (lookup_old h [c] t tobj Ht).
  destruct ((h ++ [c]) !! v); now exists [c].
Qed.

(** X11.  The six comparisons never write to an object of the store,
    whether they return or throw; on an unsigned receiver of width at
    most 31 they compare the receiver's value with the operand's number
    modulo [2^w], so a vector equals every number congruent to its
    value. *)
Theorem comparisons_read_only (w : nat) (h : heap) (this : ref) (o : binary)
  (operand : jsval) (n : Z) :
  (w <= 31)%nat ->
  h !! this = Some o -> vector w o -> useSigned o = false ->
  in_store h operand -> fst (convert operand h) = inr n ->
  let m := n mod 2 ^ Z.of_nat w in
  (forall (rel : Z -> Z -> bool) (target arg : jsval) (r : ref) (x : binary),
      h !! r = Some x ->
      snd (Static.comparison rel target arg h) !! r = Some x) /\
  fst (Method.equal this operand h) = inr (valueOf o =? m) /\
  fst (Method.notEqual this operand h) = inr (negb (valueOf o =? m)) /\
  fst (Method.greaterThen this operand h) = inr (valueOf o >? m) /\
  fst (Method.lessThen this operand h) = inr (valueOf o <? m) /\
  fst (Method.greaterThenOrEqual this operand h) = inr (valueOf o >=? m) /\
  fst (Method.lessThenOrEqual this operand h) = inr (valueOf o <=? m).
Proof.
  intros Hw Ht Hv Hu Hin Hc m.
  pose proof Hv as (H1 & _).
  assert (Htemp : valueOf (reform_object (blank (length o) (useSigned o)) n)
                  = m).
  { rewrite Hu, H1. unfold valueOf.
    cbn [useSigned reform_object set_bits blank].
    rewrite reform_unsigned_value;
      cbn; rewrite ?length_replicate; auto; lia. }
  split.
  - intros rel target arg r x Hr.
    destruct (comparison_extends rel target arg h) as [g ->].
    now apply lookup_old.
  - unfold Method.equal, Method.notEqual, Method.greaterThen, Method.lessThen,
      Method.greaterThenOrEqual, Method.lessThenOrEqual,
      Static.equal, Static.notEqual, Static.greaterThen, Static.lessThen,
      Static.greaterThenOrEqual, Static.lessThenOrEqual.
    rewrite !(comparison_ok _ this operand h o n Ht Hin Hc).
    cbn [fst]. rewrite Htemp. repeat split; reflexivity.
Qed.

Lemma comparisons_read_only_witness :
  let o := mkBinary 8 255 127 127 false
             [false; false; false; false; false; false; false; true] in
  fst (Method.equal 0%nat (VNumber 257) [o])
  = inr (valueOf o =? 257 mod 2 ^ Z.of_nat 8)
  /\ (valueOf o =? 257 mod 2 ^ Z.of_nat 8) = true.
Proof.
  intros o.
  assert (Hw : (8 <= 31)%nat) by lia.
  assert (Hv : vector 8 o) by (repeat split; reflexivity).
  split; [|reflexivity].
  exact (proj1 (proj2 (comparisons_read_only 8 [o] 0%nat o (VNumber 257) 257
                         Hw eq_refl Hv eq_refl I eq_refl))).
Defined.

(* ===================================================================== *)
(** ** Signed vectors *)
(* ===================================================================== *)

Lemma land_low_mask (u : Z) (k : Z) :
  0 <= k -> Z.land u (2 ^ k - 1) = u mod 2 ^ k.
Proof.
  intros Hk. rewrite <- Z.land_ones by lia. f_equal.
  rewrite Z.ones_equiv. lia.
Qed.

Lemma testbit_low_mask (k j : Z) :
  0 <= k -> 0 <= j -> Z.testbit (2 ^ k - 1) j = (j <? k).
Proof.
  intros Hk Hj. replace (2 ^ k - 1) with (Z.ones k)
    by (rewrite Z.ones_equiv; lia).
  destruct (Z.ltb_spec j k).
  - apply Z.ones_spec_low. lia.
  - apply Z.ones_spec_high. lia.
Qed.

(** The decode of an unsigned reading [u] of a vector of width 1 to 31,
    with the masks spelled out. *)
Lemma signed_by_low_bits (w : nat) (o : binary) :
  (1 <= w <= 31)%nat -> vector w o ->
  signed o
  = if unsigned o mod 2 ^ (Z.of_nat w - 1) =? 0 then unsigned o
    else unsigned o mod 2 ^ (Z.of_nat w - 1) - (2 ^ (Z.of_nat w - 1) - 1).
Proof.
  intros Hw Hv.
  rewrite (signed_spec_signed w o Hv).
  pose proof (vector_unsigned_range w o ltac:(lia) Hv) as Ru.
  rewrite (spec_signed_math_signed w _ Hw Ru).
  unfold math_signed. destruct (math_masks w Hw) as [-> ->].
  rewrite land_low_mask by lia.
  destruct (_ =? 0); lia.
Qed.

(** At width 32 the [signed] accessor adds 1 to every reading that is not
    0, whatever the bits: with both masks -1 the decode is
    [-(-1) + (u & -1)]. *)
Lemma signed_at_width_32 (o : binary) :
  vector 32 o ->
  signed o = if unsigned o =? 0 then 0 else unsigned o + 1.
Proof.
  intros Hv. pose proof Hv as (H1 & _).
  rewrite (signed_spec_signed 32 o Hv).
  destruct masks_at_width_32 as (Ed & Es & _).
  unfold signed_of_unsigned. rewrite Es, Ed.
  assert (U : unsigned o = Int32.ToInt32 (prefix_value 32 (bits o))).
  { unfold unsigned. rewrite H1. change 1 with (mask_at 0).
    rewrite unsigned_loop_wrap by lia.
    rewrite ToInt32_testbit_31.
    change 31 with (Z.of_nat 31). rewrite prefix_value_testbit.
    destruct (decide (31 < 32)%nat); [|lia].
    change (32 - 1 - 31)%nat with 0%nat.
    pose proof (prefix_value_range 32 (bits o)) as P.
    change (Z.of_nat 32) with 32 in P.
    rewrite Z.mod_small by exact P.
    change (2 ^ Z.of_nat 0) with 1. lia. }
  assert (R : - 2 ^ 31 <= unsigned o < 2 ^ 31)
    by (rewrite U; apply ToInt32_range).
  unfold Int32.and. rewrite (ToInt32_id (unsigned o)) by exact R.
  change (Int32.ToInt32 (-1)) with (-1). rewrite Z.land_m1_r.
  destruct (Z.eqb_spec (unsigned o) 0) as [->|]; [reflexivity | lia].
Qed.

(** X12.  The two accessors stay in fixed ranges on every vector of
    width 1 to 31, whatever its bits: [unsigned] lies between 0 and the
    mask, and [signed] is either [2^(w-1)] or a number above
    [-2^(w-1)] and at most 0 -- it is never a positive number below
    [2^(w-1)]. *)
Theorem accessor_ranges (w : nat) (o : binary) :
  (1 <= w <= 31)%nat -> vector w o ->
  0 <= unsigned o <= mask o /\
  (signed o = 2 ^ (Z.of_nat w - 1) \/
   - 2 ^ (Z.of_nat w - 1) < signed o <= 0).
Proof.
  intros Hw Hv.
  pose proof (vector_unsigned_range w o ltac:(lia) Hv) as Ru.
  pose proof Hv as (_ & H2 & _).
  rewrite H2, mask_of_size_pow2.
  split; [lia|].
  rewrite (signed_by_low_bits w o Hw Hv).
  assert (P : 0 < 2 ^ (Z.of_nat w - 1)) by (apply Z.pow_pos_nonneg; lia).
  assert (D : 2 ^ Z.of_nat w = 2 * 2 ^ (Z.of_nat w - 1)).
  { rewrite <- Z.pow_succ_r by lia. f_equal. lia. }
  pose proof (Z.mod_pos_bound (unsigned o) (2 ^ (Z.of_nat w - 1)) P) as Rl.
  pose proof (Z.div_mod (unsigned o) (2 ^ (Z.of_nat w - 1)) ltac:(lia)) as Edm.
  destruct (Z.eqb_spec (unsigned o mod 2 ^ (Z.of_nat w - 1)) 0) as [E|E].
  - rewrite E in Edm.
    assert (Q : unsigned o / 2 ^ (Z.of_nat w - 1) = 0 \/
                unsigned o / 2 ^ (Z.of_nat w - 1) = 1) by nia.
    destruct Q as [Q|Q]; rewrite Q in Edm; [right | left]; lia.
  - right. lia.
Qed.

Lemma accessor_ranges_witness :
  let o := mkBinary 8 255 127 127 true
             [false; false; false; false; false; false; false; true] in
  0 <= unsigned o <= mask o /\
  (signed o = 2 ^ (Z.of_nat 8 - 1) \/
   - 2 ^ (Z.of_nat 8 - 1) < signed o <= 0).
Proof.
  intros o.
  assert (Hw : (1 <= 8 <= 31)%nat) by lia.
  assert (Hv : vector 8 o) by (repeat split; reflexivity).
  exact (accessor_ranges 8 o Hw Hv).
Defined.

(** The bits the signed branch of [reform] writes, widths 2 to 31: the
    sign of the number at index 0, the low [w - 1] bits of the number
    after it. *)
Lemma reform_signed_bit (w : nat) (o : binary) (v : Z) (i : nat) :
  (2 <= w <= 31)%nat -> vector w o -> useSigned o = true ->
  (i < w)%nat ->
  bit_at (reform_bits o v) i
  = if decide (i = 0)%nat then v <? 0
    else Z.testbit v (Z.of_nat (w - 1 - i)).
Proof.
  intros Hw (H1 & H2 & H3 & H4 & H5) Hu Hi.
  destruct (low_masks w ltac:(lia)) as [Ld _].
  set (l := reform_loop (length o) 1
              (fun msk => Int32.and (Int32.and v msk) (decimalMask o))
              (bits o)).
  assert (Hl : forall k, (k < w)%nat ->
             l !! k = Some (Z.testbit v (Z.of_nat (w - 1 - k))
                            && (Z.of_nat (w - 1 - k) <? Z.of_nat w - 1))).
  { intros k Hk. subst l. rewrite reform_loop_lookup by lia.
    rewrite H1. destruct (decide (k < w)%nat); [|lia].
    fold (mask_at (w - 1 - k)). rewrite mask_at_pow2 by lia.
    f_equal. rewrite H3, Ld.
    set (j := Z.of_nat (w - 1 - k)).
    assert (Hj : 0 <= j < 31) by lia.
    rewrite and_pow2 by lia.
    assert (P : 0 < 2 ^ (Z.of_nat w - 1) <= 2 ^ 30)
      by (split; [apply Z.pow_pos_nonneg; lia
                 | apply Z.pow_le_mono_r; lia]).
    destruct (Z.testbit v j); cbn [andb]; [|reflexivity].
    replace (Int32.and (2 ^ j) (2 ^ (Z.of_nat w - 1) - 1))
      with (Int32.and (2 ^ (Z.of_nat w - 1) - 1) (2 ^ j))
      by (unfold Int32.and; apply Z.land_comm).
    rewrite truthy_and_pow2 by lia.
    apply testbit_low_mask; lia. }
  assert (Hlen : List.length l = w)
    by (subst l; rewrite reform_loop_length; lia).
  unfold bit_at, reform_bits. rewrite Hu. cbn [negb]. fold l.
  destruct (decide (i = 0)%nat) as [->|Hne].
  - destruct (v <? 0).
    + now rewrite list_lookup_insert_eq by lia.
    + rewrite Hl by lia.
      replace (Z.of_nat (w - 1 - 0) <? Z.of_nat w - 1) with false
        by (symmetry; apply Z.ltb_ge; lia).
      now rewrite andb_false_r.
  - assert (E : l !! i = Some (Z.testbit v (Z.of_nat (w - 1 - i)))).
    { rewrite Hl by lia.
      replace (Z.of_nat (w - 1 - i) <? Z.of_nat w - 1) with true
        by (symmetry; apply Z.ltb_lt; lia).
      now rewrite andb_true_r. }
    destruct (v <? 0); [rewrite list_lookup_insert_ne by lia|];
      now rewrite E.
Qed.

(** What a signed vector of width 2 to 31 reads as unsigned after
    [reform]: the low [w - 1] bits of the number, plus the top weight
    when the number is negative. *)
Lemma reform_signed_unsigned (w : nat) (o : binary) (v : Z) :
  (2 <= w <= 31)%nat -> vector w o -> useSigned o = true ->
  unsigned (reform_object o v)
  = v mod 2 ^ (Z.of_nat w - 1)
    + (if v <? 0 then 2 ^ (Z.of_nat w - 1) else 0).
Proof.
  intros Hw Hv Hu. pose proof Hv as (H1 & _ & _ & _ & H5).
  set (k := Z.of_nat w - 1).
  set (V := v mod 2 ^ k + (if v <? 0 then 2 ^ k else 0)).
  assert (P : 0 < 2 ^ k) by (apply Z.pow_pos_nonneg; lia).
  assert (D : 2 ^ Z.of_nat w = 2 * 2 ^ k).
  { rewrite <- Z.pow_succ_r by lia. f_equal. lia. }
  pose proof (Z.mod_pos_bound v (2 ^ k) P) as Rl.
  assert (RV : 0 <= V < 2 ^ Z.of_nat w)
    by (subst V; destruct (v <? 0); lia).
  rewrite unsigned_prefix_value by (cbn; lia).
  cbn [reform_object set_bits length bits]. rewrite H1.
  rewrite (prefix_value_testbits w w V).
  - rewrite Nat.sub_diag. cbn [Z.of_nat].
    rewrite Z.pow_0_r, Z.div_1_r. now apply Z.mod_small.
  - lia.
  - intros i Hi. rewrite (reform_signed_bit w o v i Hw Hv Hu Hi).
    destruct (decide (i = 0)%nat) as [->|Hne].
    + replace (Z.of_nat (w - 1 - 0)) with k by lia.
      subst V. destruct (v <? 0).
      * apply eq_sym, Z.testbit_true; [lia|].
        replace (v mod 2 ^ k + 2 ^ k) with (v mod 2 ^ k + 1 * 2 ^ k) by lia.
        rewrite Z.div_add by lia. rewrite Z.div_small by lia. reflexivity.
      * apply eq_sym, Z.testbit_false; [lia|].
        rewrite Z.add_0_r, Z.div_small by lia. reflexivity.
    + set (j := Z.of_nat (w - 1 - i)).
      assert (Hj : 0 <= j < k) by lia.
      rewrite <- (Z.mod_pow2_bits_low V k j) by lia.
      rewrite <- (Z.mod_pow2_bits_low v k j) by lia.
      f_equal. subst V. destruct (v <? 0).
      * replace (v mod 2 ^ k + 2 ^ k) with (v mod 2 ^ k + 1 * 2 ^ k) by lia.
        rewrite Z.mod_add by lia. now rewrite Z.mod_mod by lia.
      * rewrite Z.add_0_r. now rewrite Z.mod_mod by lia.
Qed.

(** X13.  Signed construction does not read back: at width 2 to 31,
    [new binary(w, v, true).valueOf()] is [v - (2^(w-1) - 1)] for a
    positive [v] below [2^(w-1)] and [v + 1] for a negative [v] above
    [-2^(w-1)]; over all integers, 0 is the only seed that reads back as
    itself. *)
Theorem signed_read_back (w : nat) (v : Z) (h : heap) :
  (2 <= w <= 31)%nat ->
  exists c,
    constructor w (VNumber v) (VBoolean true) h
    = (inr (List.length h), h ++ [c]) /\
    vector w c /\ useSigned c = true /\
    (0 < v < 2 ^ (Z.of_nat w - 1) ->
     valueOf c = v - (2 ^ (Z.of_nat w - 1) - 1)) /\
    (- 2 ^ (Z.of_nat w - 1) < v < 0 -> valueOf c = v + 1) /\
    (valueOf c = v <-> v = 0).
Proof.
  intros Hw.
  set (c := reform_object (blank w true) v).
  assert (Hv : vector w c) by apply vector_reform, vector_blank.
  exists c. split; [now apply constructor_ok|].
  split; [exact Hv|]. split; [reflexivity|].
  set (k := Z.of_nat w - 1).
  assert (P : 2 <= 2 ^ k).
  { change 2 with (2 ^ 1) at 1. apply Z.pow_le_mono_r; lia. }
  pose proof (Z.mod_pos_bound v (2 ^ k) ltac:(lia)) as Rl.
  pose proof (Z.div_mod v (2 ^ k) ltac:(lia)) as Edm.
  assert (U : unsigned c
              = v mod 2 ^ k + (if v <? 0 then 2 ^ k else 0))
    by exact (reform_signed_unsigned w (blank w true) v Hw
                (vector_blank w true) eq_refl).
  assert (Ulow : unsigned c mod 2 ^ k = v mod 2 ^ k).
  { rewrite U. destruct (v <? 0).
    - replace (v mod 2 ^ k + 2 ^ k) with (v mod 2 ^ k + 1 * 2 ^ k) by lia.
      rewrite Z.mod_add by lia. now rewrite Z.mod_mod by lia.
    - rewrite Z.add_0_r. now rewrite Z.mod_mod by lia. }
  assert (S : valueOf c
              = if v mod 2 ^ k =? 0
                then (if v <? 0 then 2 ^ k else 0)
                else v mod 2 ^ k - (2 ^ k - 1)).
  { unfold valueOf. change (useSigned c) with true. cbv iota.
    rewrite (signed_by_low_bits w c ltac:(lia) Hv). fold k.
    rewrite Ulow. destruct (v mod 2 ^ k =? 0) eqn:E; [|reflexivity].
    rewrite U. apply Z.eqb_eq in E. rewrite E. lia. }
  rewrite S.
  destruct (Z.eqb_spec (v mod 2 ^ k) 0) as [E|E];
    destruct (Z.ltb_spec v 0) as [Hneg|Hpos].
  - split; [lia|]. split; [|split; lia].
    intros Hr. exfalso. rewrite E in Edm.
    assert (v / 2 ^ k = -1 \/ v / 2 ^ k <= -2 \/ 0 <= v / 2 ^ k) by lia.
    nia.
  - split; [|split; [lia|]].
    + intros Hr. exfalso. rewrite E in Edm.
      assert (v / 2 ^ k <= 0 \/ 1 <= v / 2 ^ k) by lia. nia.
    + split; [lia|]. intros ->. reflexivity.
  - split; [lia|]. split; [|split; [|lia]].
    + intros Hr.
      assert (Q : v / 2 ^ k = -1) by nia. rewrite Q in Edm. lia.
    + intros Hr. exfalso.
      assert (Q : 2 ^ k * (v / 2 ^ k + 1) = 1) by lia.
      assert (v / 2 ^ k + 1 <= 0 \/ 1 <= v / 2 ^ k + 1) by lia. nia.
  - split; [|split; [lia|]].
    + intros Hr.
      assert (Q : v / 2 ^ k = 0) by nia. rewrite Q in Edm. lia.
    + split.
      * intros Hr. exfalso.
        assert (Q : 2 ^ k * (v / 2 ^ k + 1) = 1) by lia.
        assert (v / 2 ^ k + 1 <= 0 \/ 1 <= v / 2 ^ k + 1) by lia. nia.
      * intros ->. exfalso. apply E. apply Z.mod_0_l. lia.
Qed.

Lemma signed_read_back_witness :
  exists c,
    constructor 8 (VNumber (-37)) (VBoolean true) []
    = (inr (List.length (@nil binary)), [] ++ [c]) /\
    vector 8 c /\ useSigned c = true /\
    (0 < -37 < 2 ^ (Z.of_nat 8 - 1) ->
     valueOf c = -37 - (2 ^ (Z.of_nat 8 - 1) - 1)) /\
    (- 2 ^ (Z.of_nat 8 - 1) < -37 < 0 -> valueOf c = -37 + 1) /\
    (valueOf c = -37 <-> -37 = 0).
Proof.
  assert (Hw : (2 <= 8 <= 31)%nat) by lia.
  exact (signed_read_back 8 (-37) [] Hw).
Defined.

(* ===================================================================== *)
(** ** [toBinaryString] *)
(* ===================================================================== *)

Lemma string_append_assoc (s1 s2 s3 : string) :
  append (append s1 s2) s3 = append s1 (append s2 s3).
Proof. induction s1 as [|c s1 IH]; cbn; [reflexivity | now rewrite IH]. Qed.

Lemma string_append_empty_r (s : string) : append s EmptyString = s.
Proof. induction s as [|c s IH]; cbn; [reflexivity | now rewrite IH]. Qed.

Lemma string_length_append (s1 s2 : string) :
  String.length (append s1 s2) = (String.length s1 + String.length s2)%nat.
Proof. induction s1 as [|c s1 IH]; cbn; [reflexivity | now rewrite IH]. Qed.

Lemma toBinaryString_loop_spec (n index : nat) (str : string) (l : list bool) :
  toBinaryString_loop n index str l
  = append str (bit_string (bit_at l <$> seq index n)).
Proof.
  revert index str. induction n as [|n IH]; intros index str.
  - cbn. now rewrite string_append_empty_r.
  - cbn [toBinaryString_loop seq fmap list_fmap bit_string].
    rewrite IH, string_append_assoc. f_equal.
    destruct (bit_at l index); reflexivity.
Qed.

Lemma bits_by_index (w : nat) (o : binary) :
  vector w o -> bit_at (bits o) <$> seq 0 w = bits o.
Proof.
  intros Hv. rewrite <- (toArray_bits w o Hv) at 2.
  unfold toArray. rewrite toArray_loop_spec. cbn [app].
  destruct Hv as (-> & _). reflexivity.
Qed.

Lemma toBinaryString_text (w : nat) (o : binary) (prefix : bool) :
  vector w o ->
  toBinaryString o prefix
  = append (if prefix then "0b" else EmptyString) (bit_string (bits o)).
Proof.
  intros Hv. unfold toBinaryString. rewrite toBinaryString_loop_spec.
  pose proof Hv as (-> & _). now rewrite (bits_by_index w o Hv).
Qed.

Lemma bit_string_length (l : list bool) :
  String.length (bit_string l) = List.length l.
Proof. induction l as [|b l IH]; cbn; [reflexivity | now rewrite IH]. Qed.

Lemma bit_string_get (l : list bool) (i : nat) :
  String.get i (bit_string l)
  = (fun b : bool => if b then "1" else "0")%char <$> l !! i.
Proof.
  revert i. induction l as [|b l IH]; intros i; [now destruct i|].
  destruct i as [|i]; cbn; [reflexivity | apply IH].
Qed.

Lemma prefix_value_cons (k : nat) (b : bool) (l : list bool) :
  prefix_value (S k) (b :: l)
  = (if b then 1 else 0) * 2 ^ Z.of_nat k + prefix_value k l.
Proof.
  induction k as [|k IH].
  - cbn. destruct b; reflexivity.
  - change (prefix_value (S (S k)) (b :: l))
      with (2 * prefix_value (S k) (b :: l)
            + (if bit_at (b :: l) (S k) then 1 else 0)).
    rewrite IH. cbn [prefix_value].
    change (bit_at (b :: l) (S k)) with (bit_at l k).
    rewrite Nat2Z.inj_succ, Z.pow_succ_r by lia.
    destruct b, (bit_at l k); lia.
Qed.

(** Reading a bit text as a binary numeral gives the number the bits
    spell. *)
Lemma digits_value_bit_string (l : list bool) (acc : Z) :
  digits_value 2 acc (bit_string l)
  = Some (acc * 2 ^ Z.of_nat (List.length l)
          + prefix_value (List.length l) l).
Proof.
  revert acc. induction l as [|b l IH]; intros acc.
  - cbn. f_equal. lia.
  - cbn [bit_string digits_value List.length].
    assert (D : digit_value 2 (if b then "1" else "0")%char
                = Some (if b then 1 else 0)) by (now destruct b).
    rewrite D, IH, prefix_value_cons.
    f_equal. rewrite Nat2Z.inj_succ, Z.pow_succ_r by lia.
    destruct b; lia.
Qed.

Lemma literal_value_bit_string (l : list bool) :
  l <> [] ->
  literal_value 2 (bit_string l) = Some (prefix_value (List.length l) l).
Proof.
  intros Hl. destruct l as [|b l]; [congruence|].
  change (literal_value 2 (bit_string (b :: l)))
    with (digits_value 2 0 (bit_string (b :: l))).
  rewrite digits_value_bit_string. f_equal; lia.
Qed.

(** X14.  [toBinaryString] of a vector of width [w] is [w] characters,
    '1' where the bit is set and '0' where it is clear, most significant
    first, after the prefix [0b] when asked for.  For a width of 1 to 31
    the prefixed text, read back as a number, is the unsigned value, and
    an unsigned vector built from it is equal to the original. *)
Theorem toBinaryString_round_trip (w : nat) (o : binary) (h : heap) :
  vector w o ->
  String.length (toBinaryString o false) = w /\
  (forall i, (i < w)%nat ->
             String.get i (toBinaryString o false)
             = Some (if bit_at (bits o) i then "1" else "0")%char) /\
  toBinaryString o true = append "0b" (toBinaryString o false) /\
  ((1 <= w <= 31)%nat ->
   StringToNumber (toBinaryString o true) = Some (unsigned o) /\
   (useSigned o = false ->
    constructor w (VString (toBinaryString o true)) (VBoolean false) h
    = (inr (List.length h), h ++ [o]))).
Proof.
  intros Hv. pose proof Hv as (H1 & _ & _ & _ & H5).
  rewrite !(toBinaryString_text w o) by exact Hv. cbn [append].
  split; [now rewrite bit_string_length|].
  split.
  { intros i Hi. rewrite bit_string_get. unfold bit_at.
    destruct (lookup_lt_is_Some_2 (bits o) i ltac:(lia)) as [b Hb].
    now rewrite Hb. }
  split; [reflexivity|].
  intros Hw.
  assert (Hparse : StringToNumber (String "0" (String "b" (bit_string (bits o))))
                   = Some (unsigned o)).
  { change (StringToNumber (String "0" (String "b" (bit_string (bits o)))))
      with (literal_value 2 (bit_string (bits o))).
    rewrite literal_value_bit_string
      by (intros E; rewrite E in H5; cbn in H5; lia).
    rewrite H5, unsigned_prefix_value by lia. now rewrite H1. }
  split; [exact Hparse|].
  intros Hu.
  rewrite (constructor_ok w _ _ h (unsigned o)); [|exact I|].
  - cbn [flag_of]. do 3 f_equal.
    apply (reform_unsigned_back w); auto; try lia.
    + apply vector_blank.
    + apply Z.mod_small.
      apply vector_unsigned_range; [lia | exact Hv].
  - cbn [convert String.eqb]. rewrite Hparse. reflexivity.
Qed.

Lemma toBinaryString_round_trip_witness :
  let o := mkBinary 8 255 127 127 false
             [true; true; false; true; true; false; true; false] in
  toBinaryString o true = "0b11011010"%string /\
  StringToNumber (toBinaryString o true) = Some (unsigned o) /\
  constructor 8 (VString (toBinaryString o true)) (VBoolean false) []
  = (inr (List.length (@nil binary)), [] ++ [o]).
Proof.
  intros o.
  assert (Hv : vector 8 o) by (repeat split; reflexivity).
  assert (Hw : (1 <= 8 <= 31)%nat) by lia.
  destruct (toBinaryString_round_trip 8 o [] Hv) as (_ & _ & _ & H).
  destruct (H Hw) as [H1 H2].
  split; [reflexivity|]. split; [exact H1 | exact (H2 eq_refl)].
Defined.

(* ===================================================================== *)
(** ** [toHexadecimalString], in full *)
(* ===================================================================== *)

Lemma is_one_at_bit_string (l : list bool) (i : nat) :
  is_one_at (bit_string l) i = bit_at l i.
Proof.
  unfold is_one_at, bit_at. rewrite bit_string_get.
  destruct (l !! i) as [[|]|]; reflexivity.
Qed.

Lemma chunk_loop_popcount (l : list bool) (char : nat) :
  chunk_loop 4 (char * 4) 0 (bit_string l) = Z.of_nat (popcount l char).
Proof.
  cbn [chunk_loop]. rewrite !is_one_at_bit_string. unfold popcount.
  replace (S (char * 4)) with (char * 4 + 1)%nat by lia.
  replace (S (char * 4 + 1)) with (char * 4 + 2)%nat by lia.
  replace (S (char * 4 + 2)) with (char * 4 + 3)%nat by lia.
  destruct (bit_at l (char * 4)), (bit_at l (char * 4 + 1)),
    (bit_at l (char * 4 + 2)), (bit_at l (char * 4 + 3)); reflexivity.
Qed.

Lemma popcount_le_4 (l : list bool) (char : nat) : (popcount l char <= 4)%nat.
Proof.
  unfold popcount.
  destruct (bit_at l (char * 4)), (bit_at l (char * 4 + 1)),
    (bit_at l (char * 4 + 2)), (bit_at l (char * 4 + 3)); cbn; lia.
Qed.

Lemma hex_digit_small (k : nat) :
  (k <= 4)%nat -> hex_digit (Z.of_nat k) = String (digit_char k) EmptyString.
Proof.
  intros H. do 5 (destruct k as [|k]; [reflexivity|]). lia.
Qed.

Lemma hex_digit_chunk (l : list bool) (char : nat) :
  hex_digit (chunk_number (bit_string l) char)
  = String (digit_char (chunk_digit l char)) EmptyString.
Proof.
  unfold chunk_number, chunk_digit. rewrite bit_string_length.
  destruct (char * 4 + 4 <? List.length l)%nat; [|reflexivity].
  replace (char * 4 + 4 - char * 4)%nat with 4%nat by lia.
  rewrite chunk_loop_popcount. apply hex_digit_small, popcount_le_4.
Qed.

Lemma toHexadecimalString_loop_spec (n char : nat) (str : string)
  (l : list bool) :
  toHexadecimalString_loop n char str (bit_string l)
  = append str (digits_string (chunk_digit l <$> seq char n)).
Proof.
  revert char str. induction n as [|n IH]; intros char str.
  - cbn. now rewrite string_append_empty_r.
  - cbn [toHexadecimalString_loop seq fmap list_fmap digits_string].
    rewrite IH, hex_digit_chunk, string_append_assoc. reflexivity.
Qed.

Lemma digits_string_length (l : list nat) :
  String.length (digits_string l) = List.length l.
Proof. induction l as [|n l IH]; cbn; [reflexivity | now rewrite IH]. Qed.

Lemma chunk_digits (l : list bool) :
  (1 <= List.length l)%nat ->
  chunk_digit l <$> seq 0 (ceil_div4 (List.length l))
  = (popcount l <$> seq 0 (ceil_div4 (List.length l) - 1)) ++ [0%nat].
Proof.
  intros Hl. unfold ceil_div4.
  set (w := List.length l) in *.
  pose proof (Nat.div_mod_eq (w + 3) 4) as E.
  pose proof (Nat.mod_upper_bound (w + 3) 4 ltac:(lia)) as B.
  set (q := ((w + 3) / 4)%nat) in *.
  assert (Hq : q = S (q - 1)) by lia.
  rewrite Hq at 1. rewrite seq_S, fmap_app. cbn [fmap list_fmap Nat.add].
  f_equal.
  - apply list_fmap_ext. intros i c Hc. apply lookup_seq in Hc as [-> Hi].
    cbn [Nat.add]. unfold chunk_digit. fold w.
    destruct (Nat.ltb_spec (i * 4 + 4) w); [reflexivity | lia].
  - unfold chunk_digit. fold w.
    destruct (Nat.ltb_spec ((q - 1) * 4 + 4) w); [lia | reflexivity].
Qed.

(** X15.  [toHexadecimalString] of a vector of width [w], at least 1,
    is one character per started group of four bits: for every group but
    the last, the digit that counts the set bits of the group, '0' to
    '4'; for the last group always '0'.  No letter A to F is ever
    produced.  The prefix [0x] comes first when asked for. *)
Theorem toHexadecimalString_text (w : nat) (o : binary) (prefix : bool) :
  (1 <= w)%nat -> vector w o ->
  toHexadecimalString o prefix
  = append (if prefix then "0x" else EmptyString)
      (digits_string
         ((popcount (bits o) <$> seq 0 (ceil_div4 w - 1)) ++ [0%nat])) /\
  String.length (toHexadecimalString o false) = ceil_div4 w /\
  (forall char, (popcount (bits o) char <= 4)%nat).
Proof.
  intros Hw Hv. pose proof Hv as (H1 & _ & _ & _ & H5).
  assert (E : forall p,
             toHexadecimalString o p
             = append (if p then "0x" else EmptyString)
                 (digits_string
                    ((popcount (bits o) <$> seq 0 (ceil_div4 w - 1))
                       ++ [0%nat]))).
  { intros p. unfold toHexadecimalString.
    rewrite (toBinaryString_text w o false Hv). cbn [append].
    rewrite toHexadecimalString_loop_spec, bit_string_length.
    rewrite chunk_digits by lia. now rewrite H5. }
  split; [apply E|]. split; [|intros char; apply popcount_le_4].
  rewrite E. cbn [append].
  rewrite digits_string_length, length_app, length_fmap, length_seq.
  cbn [List.length]. unfold ceil_div4.
  pose proof (Nat.div_mod_eq (w + 3) 4).
  pose proof (Nat.mod_upper_bound (w + 3) 4 ltac:(lia)). lia.
Qed.

Lemma toHexadecimalString_text_witness :
  let o := mkBinary 12 4095 2047 2047 false (replicate 12 true) in
  toHexadecimalString o true = "0x440"%string /\
  toHexadecimalString o true
  = append "0x"
      (digits_string
         ((popcount (bits o) <$> seq 0 (ceil_div4 12 - 1)) ++ [0%nat])).
Proof.
  intros o.
  assert (Hw : (1 <= 12)%nat) by lia.
  assert (Hv : vector 12 o) by (repeat split; reflexivity).
  split; [reflexivity|].
  exact (proj1 (toHexadecimalString_text 12 o true Hw Hv)).
Defined.

(* ===================================================================== *)
(** ** The iterator *)
(* ===================================================================== *)

(** Once [index] is past the last bit, every further call of [next()]
    yields [undefined] and moves [index] one further. *)
Lemma take_yields_past_end (n : nat) (o : binary) (index : Z) :
  0 < index -> Z.of_nat (List.length (bits o)) <= index ->
  take_yields n o (Running index) = replicate n None.
Proof.
  revert index. induction n as [|n IH]; intros index Hpos Hend;
    [reflexivity|].
  cbn [take_yields next replicate].
  destruct (Z.geb_spec index 0) as [_|]; [|lia].
  destruct (Z.eqb_spec index 0) as [|_]; [lia|].
  rewrite IH by lia. f_equal.
  unfold property_at. destruct (Z.ltb_spec index 0); [lia|].
  apply lookup_ge_None_2. lia.
Qed.

(** X16.  The iterator of a vector of width 2 or more never finishes: the
    first value it yields is the least significant bit, and every later
    one is [undefined].  At width 1 it yields the single bit and
    returns. *)
Theorem iterator_yields (w : nat) (o : binary) (n : nat) :
  (1 <= w)%nat -> vector w o ->
  take_yields (S n) o (iterator o)
  = if decide (w = 1)%nat then [bits o !! 0%nat]
    else bits o !! (w - 1)%nat :: replicate n None.
Proof.
  intros Hw (H1 & _ & _ & _ & H5).
  unfold iterator. rewrite H1. cbn [take_yields next].
  destruct (Z.geb_spec (Z.of_nat w - 1) 0) as [_|]; [|lia].
  assert (Hp : property_at (bits o) (Z.of_nat w - 1) = bits o !! (w - 1)%nat).
  { unfold property_at. destruct (Z.ltb_spec (Z.of_nat w - 1) 0); [lia|].
    f_equal. lia. }
  rewrite Hp.
  destruct (decide (w = 1)%nat) as [->|Hne].
  - cbn. destruct n; reflexivity.
  - destruct (Z.eqb_spec (Z.of_nat w - 1) 0) as [|_]; [lia|].
    f_equal. apply take_yields_past_end; lia.
Qed.

Lemma iterator_yields_witness :
  let o := mkBinary 8 255 127 127 false
             [true; true; false; true; true; false; true; false] in
  take_yields 5 o (iterator o)
  = if decide (8 = 1)%nat then [bits o !! 0%nat]
    else bits o !! (8 - 1)%nat :: replicate 4 None.
Proof.
  intros o.
  assert (Hw : (1 <= 8)%nat) by lia.
  assert (Hv : vector 8 o) by (repeat split; reflexivity).
  exact (iterator_yields 8 o 4 Hw Hv).
Defined.

(* ===================================================================== *)
(** ** Arrays of the three shapes *)
(* ===================================================================== *)

Lemma encode_classes (sh : shape) (l : list bool) :
  l <> [] ->
  forallb is_boolean (encode sh <$> l)
  = match sh with Booleans => true | _ => false end /\
  forallb is_number (encode sh <$> l)
  = match sh with Numbers => true | _ => false end /\
  forallb is_numeric_string (encode sh <$> l)
  = match sh with Strings => true | _ => false end /\
  forallb Legacy.is_string (encode sh <$> l)
  = match sh with Strings => true | _ => false end.
Proof.
  intros Hl.
  assert (A : forall (p : elem -> bool),
             (forall b, p (encode sh b) = true) ->
             forallb p (encode sh <$> l) = true).
  { intros p Hp. clear Hl. induction l as [|b l IH]; cbn; [reflexivity|].
    now rewrite Hp, IH. }
  assert (B : forall (p : elem -> bool),
             (forall b, p (encode sh b) = false) ->
             forallb p (encode sh <$> l) = false).
  { intros p Hp. destruct l as [|b l]; [congruence|]. cbn.
    now rewrite Hp. }
  destruct sh; repeat split;
    (apply A; now intros []) || (apply B; now intros []).
Qed.

Lemma encode_term (sh : shape) (b : bool) (msk : Z) :
  (match sh with Booleans => boolean_term | _ => number_term end)
    (encode sh b) msk
  = Int32.and (if b then 1 else 0) msk.
Proof. destruct sh, b; reflexivity. Qed.

Lemma convert_loop_encode_shifted (sh : shape) (k : nat) (x v : Z)
  (l : list bool) :
  convert_loop k (Int32.shl x 1) v
    (match sh with Booleans => boolean_term | _ => number_term end)
    (encode sh <$> l) = v.
Proof.
  revert x v. induction k as [|k IH]; intros x v; [reflexivity|].
  cbn [convert_loop]. rewrite IH.
  unfold elem_at. rewrite list_lookup_fmap.
  destruct (l !! k) as [b|]; cbn [fmap option_fmap option_map].
  - rewrite encode_term, and_bit_shifted. lia.
  - assert (E : forall m, (match sh with
                           | Booleans => boolean_term
                           | _ => number_term
                           end) EOther (Int32.shl m 1) = 0).
    { intros m. destruct sh; [exact (and_bit_shifted true m)
                             | exact (and_bit_shifted false m) ..]. }
    rewrite E. lia.
Qed.

(** In every shape, the array branch of [convert] keeps the last element
    only. *)
Lemma convert_array_encode (sh : shape) (l : list bool) :
  l <> [] ->
  convert_array (encode sh <$> l)
  = inr (if bit_at l (List.length l - 1) then 1 else 0).
Proof.
  intros Hl.
  destruct (encode_classes sh l Hl) as (Cb & Cn & Cs & _).
  assert (Hlen : exists n, List.length l = S n)
    by (destruct l; [congruence | eexists; reflexivity]).
  destruct Hlen as [n Hn].
  assert (Hlast : elem_at (encode sh <$> l) n = encode sh (bit_at l n)).
  { unfold elem_at, bit_at. rewrite list_lookup_fmap.
    destruct (lookup_lt_is_Some_2 l n ltac:(lia)) as [b Hb].
    now rewrite Hb. }
  assert (Hloop : convert_loop (List.length (encode sh <$> l)) 1 0
                    (match sh with
                     | Booleans => boolean_term
                     | _ => number_term
                     end) (encode sh <$> l)
                  = if bit_at l n then 1 else 0).
  { rewrite length_fmap, Hn. cbn [convert_loop].
    rewrite convert_loop_encode_shifted, Hlast, encode_term, and_bit_one.
    lia. }
  replace (List.length l - 1)%nat with n by lia.
  assert (E : forall data (cb cn cs : bool),
             data <> [] ->
             forallb is_boolean data = cb ->
             forallb is_number data = cn ->
             forallb is_numeric_string data = cs ->
             convert_array data
             = let '(found, v) :=
                 if cb
                 then (true, convert_loop (List.length data) 1 0
                               boolean_term data)
                 else (false, 0) in
               let '(found, v) :=
                 if cn
                 then (true, convert_loop (List.length data) 1 v
                               number_term data)
                 else (found, v) in
               let '(found, v) :=
                 if cs
                 then (true, convert_loop (List.length data) 1 v
                               number_term data)
                 else (found, v) in
               if negb found then inl ConvertArrayContent else inr v).
  { intros data cb cn cs. destruct data as [|e es]; [congruence|].
    unfold convert_array. intros _ -> -> ->. reflexivity. }
  assert (Hne : encode sh <$> l <> [])
    by (destruct l; [congruence | discriminate]).
  rewrite (E _ _ _ _ Hne Cb Cn Cs).
  destruct sh; cbn [negb]; now rewrite Hloop.
Qed.

(** X17.  From an array in any of the three documented shapes
    ([boolean[]], [(1 | 0)[]], [('1' | '0')[]]) and of any length, the
    constructor builds, at a width of 1 to 32 and unsigned, a vector whose
    bits are all clear but the last, which is the last element of the
    array.  The value is 0 or 1 whatever the other elements are. *)
Theorem array_seed_keeps_last_element (sh : shape) (w : nat) (l : list bool)
  (h : heap) :
  (1 <= w <= 32)%nat -> l <> [] ->
  exists c,
    constructor w (VArray (encode sh <$> l)) (VBoolean false) h
    = (inr (List.length h), h ++ [c]) /\
    vector w c /\
    bits c = replicate (w - 1) false ++ [bit_at l (List.length l - 1)] /\
    valueOf c = if bit_at l (List.length l - 1) then 1 else 0.
Proof.
  intros Hw Hl.
  set (b := bit_at l (List.length l - 1)).
  set (c := reform_object (blank w false) (if b then 1 else 0)).
  assert (Hb : bits c = replicate (w - 1) false ++ [b]).
  { subst c. cbn [reform_object set_bits bits].
    rewrite (reform_bits_bit w (blank w false) b Hw (vector_blank w false)).
    cbn [useSigned blank negb orb]. now rewrite andb_true_r. }
  exists c. split; [|split; [|split]].
  - apply constructor_ok; [exact I|].
    cbn [convert]. now rewrite convert_array_encode.
  - apply vector_reform, vector_blank.
  - exact Hb.
  - unfold valueOf, unsigned. change (useSigned c) with false. cbv iota.
    change (length c) with w. rewrite Hb.
    assert (Hw' : exists k, w = S k) by (exists (pred w); lia).
    destruct Hw' as [k ->]. cbn [unsigned_loop].
    replace (S k - 1)%nat with k by lia.
    assert (Hz : forall n m num,
               (n <= k)%nat ->
               unsigned_loop n m num (replicate k false ++ [b]) = num).
    { induction n as [|n IH]; intros m num Hn; [reflexivity|].
      cbn [unsigned_loop]. rewrite IH by lia. unfold bit_at.
      rewrite lookup_app_l by (rewrite length_replicate; lia).
      rewrite lookup_replicate_2 by lia. lia. }
    rewrite Hz by lia. unfold bit_at.
    rewrite list_lookup_middle by (now rewrite length_replicate).
    destruct b; reflexivity.
Qed.

Lemma array_seed_keeps_last_element_witness :
  exists c,
    constructor 8
      (VArray (encode Numbers <$> [true; true; false; true;
                                   true; false; true; false]))
      (VBoolean false) []
    = (inr (List.length (@nil binary)), [] ++ [c]) /\
    vector 8 c /\
    bits c = replicate (8 - 1) false
               ++ [bit_at [true; true; false; true;
                           true; false; true; false]
                     (List.length [true; true; false; true;
                                   true; false; true; false] - 1)] /\
    valueOf c = if bit_at [true; true; false; true;
                           true; false; true; false]
                     (List.length [true; true; false; true;
                                   true; false; true; false] - 1)
                then 1 else 0.
Proof.
  assert (Hw : (1 <= 8 <= 32)%nat) by lia.
  assert (Hl : [true; true; false; true; true; false; true; false]
               <> @nil bool) by discriminate.
  exact (array_seed_keeps_last_element Numbers 8 _ [] Hw Hl).
Defined.

(* ===================================================================== *)
(** ** The element-wise [fromArray] of the earlier version *)
(* ===================================================================== *)

Lemma copy_loop_length (k : nat) (msk : Z) (pick : elem -> bool)
  (array : list elem) (l : list bool) :
  List.length (Legacy.copy_loop k msk pick array l) = List.length l.
Proof.
  revert msk l. induction k as [|k IH]; intros msk l; [reflexivity|].
  cbn [Legacy.copy_loop]. now rewrite IH, length_insert.
Qed.

(** Bit [i] after the copy loop: the array element that lies as far from
    the end of the array as [i] lies from the end of the vector, or
    [false] when the array has no such element. *)
Lemma copy_loop_lookup (k : nat) (msk : Z) (pick : elem -> bool)
  (array : list elem) (l : list bool) (i : nat) :
  (k <= List.length l)%nat ->
  Legacy.copy_loop k msk pick array l !! i
  = if decide (i < k)%nat
    then Some (if msk - Z.of_nat (k - 1 - i) >=? 0
               then pick (elem_at array
                            (Z.to_nat (msk - Z.of_nat (k - 1 - i))))
               else false)
    else l !! i.
Proof.
  revert msk l. induction k as [|k IH]; intros msk l Hk.
  - cbn [Legacy.copy_loop]. destruct (decide (i < 0)%nat); [lia|reflexivity].
  - cbn [Legacy.copy_loop]. rewrite IH by (rewrite length_insert; lia).
    destruct (decide (i < k)%nat) as [Hi|Hi].
    + destruct (decide (i < S k)%nat); [|lia].
      replace (msk - 1 - Z.of_nat (k - 1 - i))
        with (msk - Z.of_nat (S k - 1 - i)) by lia.
      reflexivity.
    + destruct (decide (i < S k)%nat) as [Hi'|Hi'].
      * assert (i = k) by lia. subst i.
        rewrite list_lookup_insert_eq by lia.
        replace (S k - 1 - k)%nat with 0%nat by lia.
        now rewrite Z.sub_0_r.
      * rewrite list_lookup_insert_ne by lia. reflexivity.
Qed.

Lemma pick_encode (sh : shape) (b : bool) :
  (match sh with
   | Booleans => Legacy.pick_boolean
   | Numbers => Legacy.pick_number
   | Strings => Legacy.pick_string
   end) (encode sh b) = b.
Proof. destruct sh, b; reflexivity. Qed.

(** X18.  The earlier version's [fromArray] copies element by element, so
    there the documented behaviour holds for each of the three array
    shapes and whatever the signedness: a longer array is truncated to its
    last [w] elements, a shorter one is padded with clear bits in front;
    nothing but the bits of the receiver changes, and [toArray] followed
    by [fromArray] gives back the same vector. *)
Theorem legacy_fromArray_truncates_and_pads (sh : shape) (w : nat)
  (o : binary) (l : list bool) :
  vector w o -> l <> [] ->
  Legacy.fromArray o (VArray (encode sh <$> l))
  = inr (set_bits o (replicate (w - List.length l) false
                       ++ drop (List.length l - w) l)) /\
  ((1 <= w)%nat ->
   Legacy.fromArray o (VArray (encode sh <$> toArray o)) = inr o).
Proof.
  assert (Main : forall (o : binary) (l : list bool),
             vector w o -> l <> [] ->
             Legacy.fromArray o (VArray (encode sh <$> l))
             = inr (set_bits o (replicate (w - List.length l) false
                                  ++ drop (List.length l - w) l))).
  { clear o l. intros o l (H1 & _ & _ & _ & H5) Hl.
    destruct (encode_classes sh l Hl) as (Cb & Cn & _ & Cs).
    assert (E : forall data,
               data <> [] ->
               Legacy.fromArray o (VArray data)
               = let start := Z.of_nat (List.length data) - 1 in
                 let l := bits o in
                 let l := if forallb is_boolean data
                          then Legacy.copy_loop (length o) start
                                 Legacy.pick_boolean data l
                          else l in
                 let l := if forallb is_number data
                          then Legacy.copy_loop (length o) start
                                 Legacy.pick_number data l
                          else l in
                 let l := if forallb Legacy.is_string data
                          then Legacy.copy_loop (length o) start
                                 Legacy.pick_string data l
                          else l in
                 inr (set_bits o l)).
    { intros data. destruct data; [congruence | reflexivity]. }
    assert (Hne : encode sh <$> l <> [])
      by (destruct l; [congruence | discriminate]).
    rewrite (E _ Hne). cbv zeta. rewrite Cb, Cn, Cs.
    assert (Hcopy : Legacy.copy_loop (length o)
                      (Z.of_nat (List.length (encode sh <$> l)) - 1)
                      (match sh with
                       | Booleans => Legacy.pick_boolean
                       | Numbers => Legacy.pick_number
                       | Strings => Legacy.pick_string
                       end) (encode sh <$> l) (bits o)
                    = replicate (w - List.length l) false
                        ++ drop (List.length l - w) l).
    { rewrite H1, length_fmap. apply list_eq. intros i.
      rewrite copy_loop_lookup by lia.
      destruct (decide (i < w)%nat) as [Hi|Hi].
      - destruct (Z.geb_spec
                    (Z.of_nat (List.length l) - 1 - Z.of_nat (w - 1 - i)) 0)
          as [Hge|Hlt].
        + rewrite lookup_app_r by (rewrite length_replicate; lia).
          rewrite length_replicate, lookup_drop.
          replace (List.length l - w + (i - (w - List.length l)))%nat
            with (Z.to_nat (Z.of_nat (List.length l) - 1
                            - Z.of_nat (w - 1 - i))) by lia.
          set (j := Z.to_nat _).
          destruct (lookup_lt_is_Some_2 l j ltac:(subst j; lia)) as [b Hb].
          rewrite Hb. unfold elem_at. rewrite list_lookup_fmap, Hb.
          cbn [fmap option_fmap option_map]. now rewrite pick_encode.
        + rewrite lookup_app_l by (rewrite length_replicate; lia).
          now rewrite lookup_replicate_2 by lia.
      - rewrite lookup_ge_None_2 by lia. symmetry.
        apply lookup_ge_None_2.
        rewrite length_app, length_replicate, length_drop. lia. }
    destruct sh; now rewrite Hcopy. }
  assert (Full : forall (l : list bool),
             replicate (List.length l - List.length l) false
               ++ drop (List.length l - List.length l) l = l).
  { intros l'. now rewrite Nat.sub_diag. }
  intros Hv Hl. split.
  - now apply Main.
  - intros Hw. rewrite (toArray_bits w o Hv).
    pose proof Hv as (_ & _ & _ & _ & H5).
    rewrite Main; [|assumption|intros E; rewrite E in H5; cbn in H5; lia].
    rewrite <- H5 at 1 2. rewrite Full. now destruct o.
Qed.

Lemma legacy_fromArray_truncates_and_pads_witness :
  let o := mkBinary 4 15 7 7 true [true; false; false; true] in
  let l := [true; true; false; true; true; false] in
  Legacy.fromArray o (VArray (encode Strings <$> l))
  = inr (set_bits o (replicate (4 - List.length l) false
                       ++ drop (List.length l - 4) l)) /\
  ((1 <= 4)%nat ->
   Legacy.fromArray o (VArray (encode Strings <$> toArray o)) = inr o).
Proof.
  intros o l.
  assert (Hv : vector 4 o) by (repeat split; reflexivity).
  assert (Hl : l <> []) by discriminate.
  exact (legacy_fromArray_truncates_and_pads Strings 4 o l Hv Hl).
Defined.

(* ===================================================================== *)
(** ** [toString] and the way back through [fromString] *)
(* ===================================================================== *)

Lemma digits_value_of_uint_acc (d : Decimal.uint) (acc : positive) :
  digits_value 10 (Z.pos acc) (NilEmpty.string_of_uint d)
  = Some (Z.pos (Pos.of_uint_acc d acc)).
Proof.
  revert acc. induction d; intros acc;
    cbn [digits_value NilEmpty.string_of_uint Pos.of_uint_acc];
    [reflexivity | ..];
    match goal with
    | |- context [digit_value 10 ?c] =>
        let v := eval vm_compute in (digit_value 10 c) in
        change (digit_value 10 c) with v
    end; cbv iota beta; rewrite <- IHd; f_equal; lia.
Qed.

Lemma digits_value_of_uint (d : Decimal.uint) :
  digits_value 10 0 (NilEmpty.string_of_uint d)
  = Some (Z.of_N (Pos.of_uint d)).
Proof.
  induction d;
    cbn [digits_value NilEmpty.string_of_uint Pos.of_uint];
    [reflexivity | ..];
    match goal with
    | |- context [digit_value 10 ?c] =>
        let v := eval vm_compute in (digit_value 10 c) in
        change (digit_value 10 c) with v
    end; cbv iota beta; [exact IHd | ..];
    cbn [Z.of_N]; rewrite <- digits_value_of_uint_acc; f_equal.
Qed.

Lemma StringToNumber_of_uint (d : Decimal.uint) :
  StringToNumber (NilZero.string_of_uint d) = Some (Z.of_N (Pos.of_uint d))
  /\ literal_value 10 (NilZero.string_of_uint d)
     = Some (Z.of_N (Pos.of_uint d))
  /\ String.eqb (NilZero.string_of_uint d) EmptyString = false.
Proof.
  destruct d as [|d|d|d|d|d|d|d|d|d|d]; [repeat split; reflexivity | ..];
    (split; [|split; [|reflexivity]]);
    try (rewrite <- digits_value_of_uint; reflexivity);
    rewrite <- digits_value_of_uint; destruct d; reflexivity.
Qed.

(** The decimal text of an integer reads back as that integer, and is
    never the empty string. *)
Lemma StringToNumber_number_to_string (z : Z) :
  StringToNumber (number_to_string z) = Some z /\
  String.eqb (number_to_string z) EmptyString = false.
Proof.
  unfold number_to_string.
  pose proof (DecimalZ.of_to z) as E.
  destruct (Z.to_int z) as [d|d]; cbn [Z.of_int NilZero.string_of_int] in *.
  - destruct (StringToNumber_of_uint d) as (A & _ & C).
    unfold Z.of_uint in E. now rewrite A, C, E.
  - destruct (StringToNumber_of_uint d) as (_ & B & _).
    split; [|reflexivity].
    change (StringToNumber (String "-" (NilZero.string_of_uint d)))
      with (option_map Z.opp (literal_value 10 (NilZero.string_of_uint d))).
    rewrite B. cbn [option_map]. unfold Z.of_uint in E. now rewrite E.
Qed.

(** X19.  The text [toString] gives always reads back as the number
    [valueOf] gives, so [fromString] of that text does exactly what
    [fromNumber] of the value does.  For an unsigned vector of width at
    most 31 the round trip is exact: [fromString] of its own text leaves
    the store as it was, and the constructor seeded with the text builds
    an equal vector. *)
Theorem toString_reads_back (w : nat) (x : ref) (o y : binary) (h : heap) :
  (w <= 31)%nat -> vector w o -> useSigned o = false -> h !! x = Some o ->
  StringToNumber (toString y) = Some (valueOf y) /\
  Method.fromString x (toString y) h = Method.fromNumber x (valueOf y) h /\
  Method.fromString x (toString o) h = (inr x, h) /\
  constructor w (VString (toString o)) (VBoolean false) h
  = (inr (List.length h), h ++ [o]).
Proof.
  intros Hw Hv Hu Hx.
  assert (P : forall z, StringToNumber (toString z) = Some (valueOf z) /\
                        String.eqb (toString z) EmptyString = false)
    by (intros z; apply StringToNumber_number_to_string).
  assert (Hr : 0 <= unsigned o < 2 ^ Z.of_nat w)
    by (apply vector_unsigned_range; [lia | exact Hv]).
  split; [apply P|]. split; [|split].
  - destruct (P y) as [Py Ey].
    rewrite (fromString_cases h x o _ Hx), Ey, Py.
    symmetry. apply from_ok; [exact Hx | reflexivity].
  - destruct (P o) as [Po Eo].
    rewrite (fromString_cases h x o _ Hx), Eo, Po.
    rewrite (reform_unsigned_self w o (valueOf o) Hw Hv Hu)
      by (rewrite unsigned_valueOf by exact Hu; now apply Z.mod_small).
    now rewrite list_insert_id.
  - destruct (P o) as [Po Eo].
    rewrite (constructor_ok w _ _ h (valueOf o)); [|exact I|].
    + cbn [flag_of]. do 3 f_equal.
      rewrite unsigned_valueOf by exact Hu.
      apply (reform_unsigned_back w); auto; try lia.
      * apply vector_blank.
      * now apply Z.mod_small.
    + cbn [convert]. rewrite Eo, Po. reflexivity.
Qed.

Lemma toString_reads_back_witness :
  let o := mkBinary 8 255 127 127 false
             [true; true; false; true; true; false; true; false] in
  let y := mkBinary 4 15 7 7 true [true; false; true; true] in
  toString o = "218"%string /\ toString y = "-4"%string /\
  StringToNumber (toString y) = Some (valueOf y) /\
  Method.fromString 0%nat (toString y) [o]
  = Method.fromNumber 0%nat (valueOf y) [o] /\
  Method.fromString 0%nat (toString o) [o] = (inr 0%nat, [o]) /\
  constructor 8 (VString (toString o)) (VBoolean false) [o]
  = (inr (List.length [o]), [o] ++ [o]).
Proof.
  intros o y.
  assert (Hw : (8 <= 31)%nat) by lia.
  assert (Hv : vector 8 o) by (repeat split; reflexivity).
  assert (Hu : useSigned o = false) by reflexivity.
  assert (Hx : [o] !! 0%nat = Some o) by reflexivity.
  split; [reflexivity|]. split; [reflexivity|].
  exact (toString_reads_back 8 0%nat o y [o] Hw Hv Hu Hx).
Defined.

(* ===================================================================== *)
(** ** The preset classes *)
(* ===================================================================== *)

(** The bits of the unsigned value are the bits of the vector, also at
    width 32, where the value itself is read modulo 2^32. *)
Lemma unsigned_bits_back (w : nat) (o : binary) :
  (w <= 32)%nat -> vector w o ->
  bits_of_number w (unsigned o) = bits o.
Proof.
  intros Hw (H1 & _ & _ & _ & H5).
  destruct (decide (w = 32)%nat) as [->|Hne].
  - unfold unsigned. rewrite H1. change 1 with (mask_at 0).
    rewrite unsigned_loop_wrap by lia.
    rewrite (bits_of_number_mod 32 _ (prefix_value 32 (bits o))).
    + rewrite <- H5 at 1 2. apply bits_of_prefix_value.
    + destruct (bit_at (bits o) 0).
      * replace (0 + 2 ^ Z.of_nat 0 * prefix_value 32 (bits o) - 2 ^ 32)
          with (prefix_value 32 (bits o) + (-1) * 2 ^ Z.of_nat 32)
          by (change (2 ^ Z.of_nat 32) with (2 ^ 32);
              change (2 ^ Z.of_nat 0) with 1; lia).
        apply Z.mod_add. lia.
      * f_equal. change (2 ^ Z.of_nat 0) with 1. lia.
  - rewrite unsigned_prefix_value by lia. rewrite H1.
    rewrite <- H5 at 1 2. apply bits_of_prefix_value.
Qed.

(** X20.  In each preset class ([bit], [nibble], [byte], [word],
    [dword]), [zero] builds an unsigned vector of the preset's width with
    every bit clear, reading 0, and [copy] of an unsigned vector builds a
    new object equal to it and leaves the store otherwise as it was.  The
    copy is exact for [dword] too, although at 32 bits the value the copy
    is made from is the signed reading of the bits. *)
Theorem preset_zero_and_copy (p : Preset.preset) (h : heap) (x : ref)
  (o : binary) :
  vector (Preset.size p) o -> useSigned o = false -> h !! x = Some o ->
  Preset.copy p x h = (inr (List.length h), h ++ [o]) /\
  exists z,
    Preset.zero p h = (inr (List.length h), h ++ [z]) /\
    vector (Preset.size p) z /\ useSigned z = false /\
    bits z = replicate (Preset.size p) false /\ valueOf z = 0.
Proof.
  intros Hv Hu Hx.
  assert (Hw : (Preset.size p <= 32)%nat) by (destruct p; cbn; lia).
  split.
  - unfold Preset.copy, Preset.constructor.
    rewrite (constructor_ok _ _ _ h (valueOf o)).
    + cbn [flag_of fresh_object useSigned]. do 3 f_equal.
      rewrite unsigned_valueOf by exact Hu.
      etransitivity;
        [exact (vector_eta _ _ false _
                  (vector_reform _ _ (unsigned o)
                     (vector_blank (Preset.size p) false))
                  eq_refl eq_refl)|].
      symmetry.
      etransitivity; [exact (vector_eta _ o false (bits o) Hv Hu eq_refl)|].
      f_equal. cbn [reform_object set_bits bits].
      rewrite (reform_unsigned_bits (Preset.size p))
        by (auto using vector_blank).
      symmetry. now apply unsigned_bits_back.
    + cbn. now apply lookup_lt_Some in Hx.
    + cbn. run_monad. now rewrite Hx.
  - exists (reform_object (blank (Preset.size p) false) 0).
    split; [|split; [|split; [|split]]].
    + unfold Preset.zero, Preset.constructor.
      now apply constructor_ok.
    + apply vector_reform, vector_blank.
    + reflexivity.
    + cbn [reform_object set_bits bits]. apply reform_bits_zero.
    + unfold valueOf, unsigned.
      cbn [reform_object set_bits bits useSigned length blank].
      rewrite reform_bits_zero. apply unsigned_loop_zeros.
Qed.

Lemma preset_zero_and_copy_witness :
  let o := mkBinary 32 4294967295 (-1) (-1) false
             (true :: replicate 31 false) in
  unsigned o = - 2 ^ 31 /\
  Preset.copy Preset.dword 0%nat [o] = (inr (List.length [o]), [o] ++ [o]) /\
  exists z,
    Preset.zero Preset.dword [o] = (inr (List.length [o]), [o] ++ [z]) /\
    vector (Preset.size Preset.dword) z /\ useSigned z = false /\
    bits z = replicate (Preset.size Preset.dword) false /\ valueOf z = 0.
Proof.
  intros o.
  assert (Hv : vector (Preset.size Preset.dword) o)
    by (repeat split; reflexivity).
  assert (Hu : useSigned o = false) by reflexivity.
  assert (Hx : [o] !! 0%nat = Some o) by reflexivity.
  split; [reflexivity|].
  exact (preset_zero_and_copy Preset.dword [o] 0%nat o Hv Hu Hx).
Defined.
